(** * news_fetcher.py: the stale-data firewall and the fetch orchestrator

    A shallow embedding of [src/news_fetcher.py].  The module's functions are
    translated one by one, keeping their names:

    - [filter_stale_articles]  (module level, lines 21-77)
    - [NewsFetcher.__init__], [fetch_recent_news], [get_all_headlines],
      [get_articles_by_ids], [_parse_date]  (class [NewsFetcher], lines 80-191)

    Modelling choices.
    - A [datetime] is the number of microseconds since midnight of proleptic
      Gregorian ordinal 0, a [Z]; Python compares datetimes field by field,
      which is the order of this number.  The constructor and the subtraction
      of a [timedelta] fail outside [datetime.min .. datetime.max], as in
      Python.
    - Text is [string]; a character stands for a code point below 256 and is
      classified as a word character the way Python's [re] does for [str]
      patterns.
    - [datetime.now()] and [feedparser.parse] are the two windows on the
      outside world.  They are oracles of an environment [Env], indexed by a
      tick that advances at every call, so successive calls may answer
      differently.
    - Logging calls are recorded as structured events in the order they are
      made.
    - Every article dictionary is built once in [fetch_recent_news] and gets
      its ["id"] key once; the list returned and the cache hold the same
      dictionaries, so a record value per article loses nothing.
    - The list [all_articles] is appended to in place, inside the [try] that
      covers each source: an exception raised while an entry is handled
      leaves in it what was appended before.  The loop over the entries
      therefore returns the list together with the exception that ended it,
      if one did.  Handling an entry raises where the value under
      ["summary"] cannot be sliced. *)

From Stdlib Require Import ZArith Lia Ascii String Bool Sorted.
From stdpp Require Import gmap strings list.

Local Open Scope Z_scope.

(* ===================================================================== *)
(** ** Exceptions and outcomes *)
(* ===================================================================== *)

(** The exceptions that occur: [OverflowError] from date arithmetic,
    [KeyError] from a dictionary subscript, [TypeError] from an operation
    on a value of the wrong type, and whatever [feedparser.parse] raises.
    All are subclasses of [Exception]. *)
Inductive exn : Type :=
| OverflowError
| KeyError (key : string)
| TypeError (msg : string)
| FeedError (msg : string).

Inductive Outcome (A : Type) : Type :=
| Ok (a : A)
| Raise (e : exn).
Arguments Ok {A} a.
Arguments Raise {A} e.

(* ===================================================================== *)
(** ** datetime *)
(* ===================================================================== *)

Module Datetime.

Definition datetime := Z.

Definition US_PER_SECOND : Z := 1000000.
Definition US_PER_HOUR : Z := 3600 * US_PER_SECOND.
Definition US_PER_DAY : Z := 24 * US_PER_HOUR.

Definition is_leap (year : Z) : bool :=
  (year mod 4 =? 0) && (negb (year mod 100 =? 0) || (year mod 400 =? 0)).

Definition days_before_year (year : Z) : Z :=
  let y := year - 1 in y * 365 + y / 4 - y / 100 + y / 400.

Definition days_in_month (year month : Z) : Z :=
  if (month =? 2) && is_leap year then 29
  else nth (Z.to_nat month) [0; 31; 28; 31; 30; 31; 30; 31; 31; 30; 31; 30; 31] 0.

Definition days_before_month (year month : Z) : Z :=
  nth (Z.to_nat month) [0; 0; 31; 59; 90; 120; 151; 181; 212; 243; 273; 304; 334] 0
  + (if (2 <? month) && is_leap year then 1 else 0).

Definition ymd2ord (year month day : Z) : Z :=
  days_before_year year + days_before_month year month + day.

Definition encode (ord hour minute second us : Z) : datetime :=
  (((ord * 24 + hour) * 60 + minute) * 60 + second) * US_PER_SECOND + us.

(** [datetime.min] is 0001-01-01 00:00:00, [datetime.max] is
    9999-12-31 23:59:59.999999. *)
Definition MIN : datetime := encode 1 0 0 0 0.
Definition MAX : datetime := encode 3652059 23 59 59 999999.

Definition in_range (d : Z) : bool := (MIN <=? d) && (d <=? MAX).

(** [datetime(year, month, day, hour, minute, second)]: [None] stands for
    the [ValueError] of a field out of range. *)
Definition make (year month day hour minute second : Z) : option datetime :=
  if (1 <=? year) && (year <=? 9999) &&
     (1 <=? month) && (month <=? 12) &&
     (1 <=? day) && (day <=? days_in_month year month) &&
     (0 <=? hour) && (hour <=? 23) &&
     (0 <=? minute) && (minute <=? 59) &&
     (0 <=? second) && (second <=? 59)
  then Some (encode (ymd2ord year month day) hour minute second 0)
  else None.

(** The constructor applied to the first six fields of a tuple [t] of
    integers (the call unpacks [t[:6]]): at least year, month
    and day are required ([TypeError] otherwise), the time fields default
    to 0, and at most six fields are passed. *)
Definition of_tuple (t : list Z) : option datetime :=
  match firstn 6 t with
  | [y; m; d] => make y m d 0 0 0
  | [y; m; d; h] => make y m d h 0 0
  | [y; m; d; h; mi] => make y m d h mi 0
  | [y; m; d; h; mi; s] => make y m d h mi s
  | _ => None
  end.

(** [d - timedelta(hours=h)].  Python raises [OverflowError] when the
    timedelta has more than 999999999 days or when the difference leaves
    [MIN .. MAX]; for [d] in range the first case is included in the
    second, since the whole range spans 3652059 days. *)
Definition sub_hours (d : datetime) (hours : Z) : option datetime :=
  let r := d - hours * US_PER_HOUR in
  if in_range r then Some r else None.

End Datetime.
Import Datetime.

(* ===================================================================== *)
(** ** Text and the patterns of [re.search] *)
(* ===================================================================== *)

Module Re.

(** [\w] of a [str] pattern: alphanumeric code points and the underscore.
    Below 256 these are the ASCII letters and digits, [_], and the Latin-1
    letters and numerics. *)
Definition is_word (c : ascii) : bool :=
  let n := Z.of_N (N_of_ascii c) in
  ((48 <=? n) && (n <=? 57)) || ((65 <=? n) && (n <=? 90)) || (n =? 95) ||
  ((97 <=? n) && (n <=? 122)) ||
  (n =? 170) || (n =? 178) || (n =? 179) || (n =? 181) || (n =? 185) ||
  (n =? 186) || ((188 <=? n) && (n <=? 190)) ||
  ((192 <=? n) && (n <=? 214)) || ((216 <=? n) && (n <=? 246)) ||
  ((248 <=? n) && (n <=? 255)).

Definition is_word_opt (c : option ascii) : bool :=
  match c with Some x => is_word x | None => false end.

(** The fragment of regular expressions the module uses: literal
    characters and the word-boundary assertion [\b]. *)
Inductive atom : Type :=
| WordBoundary
| Literal (c : ascii).

Definition regex := list atom.

Definition head_char (s : string) : option ascii :=
  match s with
  | EmptyString => None
  | String c _ => Some c
  end.

(** [\b] holds between a word character and a non-word character, the
    two ends of the text counting as non-word. *)
Definition at_boundary (prev : option ascii) (s : string) : bool :=
  xorb (is_word_opt prev) (is_word_opt (head_char s)).

(** Does pattern [p] match at the current position, [prev] being the
    character just before it? *)
Fixpoint match_here (p : regex) (prev : option ascii) (s : string) : bool :=
  match p with
  | [] => true
  | WordBoundary :: p' => at_boundary prev s && match_here p' prev s
  | Literal c :: p' =>
      match s with
      | EmptyString => false
      | String x s' => Ascii.eqb x c && match_here p' (Some x) s'
      end
  end.

Fixpoint search_from (p : regex) (prev : option ascii) (s : string) : bool :=
  match_here p prev s ||
  match s with
  | EmptyString => false
  | String x s' => search_from p (Some x) s'
  end.

(** [bool(re.search(p, s))] *)
Definition search (p : regex) (s : string) : bool := search_from p None s.

(** The pattern [r'\bLIT\b']. *)
Definition word_bounded (lit : string) : regex :=
  WordBoundary :: map Literal (list_ascii_of_string lit) ++ [WordBoundary].

End Re.

(** [s[:n]] for a non-negative [n] *)
Definition str_prefix (n : nat) (s : string) : string := substring 0 n s.

(** [l[:k]] for any integer [k]: a negative [k] counts from the end. *)
Definition slice_to {A} (k : Z) (l : list A) : list A :=
  if 0 <=? k then firstn (Z.to_nat k) l
  else firstn (Z.to_nat (Z.of_nat (length l) + k)) l.

(* ===================================================================== *)
(** ** Data model *)
(* ===================================================================== *)

(** An article dictionary.  [title], [link], [source] and [summary] are
    text (a missing ['title'] or ['summary'] is read as [''] by the filter's
    [.get], which the empty string stands for); ['published'] and ['id'] may
    be missing. *)
Record Article : Type := mkArticle {
  title : string;
  link : string;
  source : string;
  published : option datetime;
  summary : string;
  id : option Z
}.

(** [article["id"] = i] *)
Definition set_id (a : Article) (i : Z) : Article :=
  mkArticle (title a) (link a) (source a) (published a) (summary a) (Some i).

(** The record without its ['id'] key. *)
Definition without_id (a : Article) : Article :=
  mkArticle (title a) (link a) (source a) (published a) (summary a) None.

(** What an entry holds under ["summary"]: a text, or a value that cannot
    be sliced, such as [None] or a number, on which the slice [[:500]] of
    line 116 raises.  Such a value is given by the exception raised, a
    [TypeError] for the two named. *)
Inductive SummaryValue : Type :=
| Text (s : string)
| Unsliceable (e : exn).

(** An entry of a parsed feed: every field is optional; the two parsed
    dates are tuples of integers (a [time.struct_time]). *)
Record Entry : Type := mkEntry {
  entry_title : option string;
  entry_link : option string;
  entry_summary : option SummaryValue;
  published_parsed : option (list Z);
  updated_parsed : option (list Z)
}.

(** What [feedparser.parse] returns: [feed.feed.get("title")] and
    [feed.entries]. *)
Record Feed : Type := mkFeed {
  feed_title : option string;
  entries : list Entry
}.

(** The reduced view of [get_all_headlines]. *)
Record Headline : Type := mkHeadline {
  headline_id : Z;
  headline_title : string;
  headline_source : string
}.

(** The calls made on [logger], one constructor per call site. *)
Inductive LogRecord : Type :=
| Warning_filter_disabled                                        (* line 36 *)
| Debug_rejected_age (age : Z) (title50 : string)                (* line 53 *)
| Debug_rejected_stale_year (pattern : Re.regex) (title50 : string) (* line 61 *)
| Info_stale_filter (fresh rejected : nat) (cutoff : datetime)   (* line 72 *)
| Warning_all_filtered_out                                       (* line 75 *)
| Info_fetching_from (feed_url : string)                         (* line 102 *)
| Error_fetching (feed_url : string) (e : exn)                   (* line 121 *)
| Info_fetched (n : nat)                                         (* line 140 *)
| Warning_id_not_found (article_id : Z).                         (* line 172 *)

(** The [NewsFetcher] instance. *)
Record NewsFetcher : Type := mkNewsFetcher {
  feeds : list string;
  _articles_cache : gmap Z Article
}.

(** The outside world and the module global that can be switched. *)
Record Env : Type := mkEnv {
  clock : nat -> datetime;                     (* datetime.now() at a tick *)
  parse_oracle : nat -> string -> Outcome Feed;  (* feedparser.parse at a tick *)
  STRICT_24H_FILTER : bool
}.

(** Line 17: the value the switch has when the module is loaded. *)
Definition STRICT_24H_FILTER_at_import : bool := true.

(** Line 18. *)
Definition STALE_YEAR_PATTERNS : list Re.regex :=
  [Re.word_bounded "2024"; Re.word_bounded "2023"; Re.word_bounded "2022"].

(** The state a call runs in. *)
Record World : Type := mkWorld {
  tick : nat;
  log : list LogRecord;
  this : NewsFetcher
}.

(* ===================================================================== *)
(** ** The state-and-exception monad *)
(* ===================================================================== *)

Definition M (A : Type) : Type := World -> Outcome A * World.

Definition ret {A} (a : A) : M A := fun w => (Ok a, w).

Definition bind {A B} (m : M A) (k : A -> M B) : M B :=
  fun w =>
    match m w with
    | (Ok a, w') => k a w'
    | (Raise e, w') => (Raise e, w')
    end.

Definition raise {A} (e : exn) : M A := fun w => (Raise e, w).

(** [try: body / except Exception as e: handler e] *)
Definition try_except {A} (body : M A) (handler : exn -> M A) : M A :=
  fun w =>
    match body w with
    | (Ok a, w') => (Ok a, w')
    | (Raise e, w') => handler e w'
    end.

Declare Scope py_scope.
Delimit Scope py_scope with py.
Notation "x <- m ;; k" := (bind m (fun x => k))
  (at level 100, m at next level, right associativity) : py_scope.
Notation "m ;;; k" := (bind m (fun _ => k))
  (at level 100, right associativity) : py_scope.
Local Open Scope py_scope.

Definition logger (r : LogRecord) : M unit :=
  fun w => (Ok tt, mkWorld (tick w) (log w ++ [r]) (this w)).

Definition datetime_now (env : Env) : M datetime :=
  fun w => (Ok (clock env (tick w)), mkWorld (S (tick w)) (log w) (this w)).

Definition feedparser_parse (env : Env) (feed_url : string) : M Feed :=
  fun w => (parse_oracle env (tick w) feed_url,
            mkWorld (S (tick w)) (log w) (this w)).

(** [d - timedelta(hours=h)] as a statement. *)
Definition minus_hours (d : datetime) (h : Z) : M datetime :=
  match sub_hours d h with
  | Some r => ret r
  | None => raise OverflowError
  end.

Definition get_this : M NewsFetcher := fun w => (Ok (this w), w).

Definition set_cache (c : gmap Z Article) : M unit :=
  fun w => (Ok tt, mkWorld (tick w) (log w) (mkNewsFetcher (feeds (this w)) c)).

(** [self._articles_cache[i] = article] *)
Definition cache_store (i : Z) (a : Article) : M unit :=
  fun w => (Ok tt, mkWorld (tick w) (log w)
                     (mkNewsFetcher (feeds (this w))
                                    (<[i := a]> (_articles_cache (this w))))).

(* ===================================================================== *)
(** ** [list.sort(key=..., reverse=True)] *)
(* ===================================================================== *)

(** Python's sort is stable, also with [reverse=True]: elements with equal
    keys keep their original order.  The keys are computed first, one per
    element; the insertion sort below is the stable descending sort of the
    decorated list. *)
Fixpoint insert_desc {A} (k : Z) (x : A) (l : list (Z * A)) : list (Z * A) :=
  match l with
  | [] => [(k, x)]
  | (k', y) :: l' =>
      if k' <=? k then (k, x) :: (k', y) :: l'
      else (k', y) :: insert_desc k x l'
  end.

Fixpoint sort_desc {A} (l : list (Z * A)) : list (Z * A) :=
  match l with
  | [] => []
  | (k, x) :: l' => insert_desc k x (sort_desc l')
  end.

(** [key=lambda x: x["published"]] on every element; a missing key raises
    [KeyError]. *)
Fixpoint published_keys (l : list Article) : option (list (Z * Article)) :=
  match l with
  | [] => Some []
  | a :: l' =>
      match published a, published_keys l' with
      | Some p, Some kl => Some ((p, a) :: kl)
      | _, _ => None
      end
  end.

(** [all_articles.sort(key=lambda x: x["published"], reverse=True)] *)
Definition sort_by_published (l : list Article) : M (list Article) :=
  match published_keys l with
  | Some kl => ret (map snd (sort_desc kl))
  | None => raise (KeyError "published")
  end.

(* ===================================================================== *)
(** ** [filter_stale_articles]  (lines 21-77) *)
(* ===================================================================== *)

(** Line 48: [f"{title} {summary}"] *)
Definition text_to_check (a : Article) : string :=
  title a +:+ " " +:+ summary a.

(** Lines 59-64: the first pattern of [patterns] found in the text, if any;
    the loop breaks at the first hit. *)
Definition stale_year_scan (patterns : list Re.regex) (text : string)
  : option Re.regex :=
  List.find (fun pattern => Re.search pattern text) patterns.

(** Lines 51-52: [published and published < cutoff]; a datetime is always
    truthy, a missing key gives [None].  When the test holds the result is
    the age [now - published] that line 52 computes. *)
Definition too_old (p : option datetime) (now cutoff : datetime) : option Z :=
  match p with
  | Some d => if d <? cutoff then Some (now - d) else None
  | None => None
  end.

(** Lines 44-70: the loop over [articles], carrying [fresh_articles] and
    [rejected_count]. *)
Fixpoint filter_loop (now cutoff : datetime) (articles : list Article)
    (fresh_articles : list Article) (rejected_count : nat)
  : M (list Article * nat) :=
  match articles with
  | [] => ret (fresh_articles, rejected_count)
  | article :: rest =>
      match too_old (published article) now cutoff with
      | Some age =>
          logger (Debug_rejected_age age (str_prefix 50 (title article))) ;;;
          filter_loop now cutoff rest fresh_articles (S rejected_count)
      | None =>
          match stale_year_scan STALE_YEAR_PATTERNS (text_to_check article) with
          | Some pattern =>
              logger (Debug_rejected_stale_year pattern
                                                (str_prefix 50 (title article))) ;;;
              filter_loop now cutoff rest fresh_articles (S rejected_count)
          | None =>
              filter_loop now cutoff rest (fresh_articles ++ [article])
                          rejected_count
          end
      end
  end.

Definition filter_stale_articles (env : Env) (articles : list Article)
    (max_age_hours : Z) : M (list Article) :=
  if negb (STRICT_24H_FILTER env) then
    logger Warning_filter_disabled ;;;
    ret articles
  else
    now <- datetime_now env ;;
    cutoff <- minus_hours now max_age_hours ;;
    r <- filter_loop now cutoff articles [] 0 ;;
    let fresh_articles := fst r in
    let rejected_count := snd r in
    logger (Info_stale_filter (length fresh_articles) rejected_count cutoff) ;;;
    (if Nat.eqb (length fresh_articles) 0
     then logger Warning_all_filtered_out else ret tt) ;;;
    ret fresh_articles.

(* ===================================================================== *)
(** ** class [NewsFetcher]  (lines 80-191) *)
(* ===================================================================== *)

(** Lines 81-83.  [RSS_FEEDS] comes from the [config] module, which is not
    part of the sources at hand, and is taken as a parameter.  [feeds or
    RSS_FEEDS] picks [RSS_FEEDS] whenever [feeds] is falsy: [None] or the
    empty list. *)
Definition __init__ (RSS_FEEDS : list string) (feeds : option (list string))
  : NewsFetcher :=
  let chosen :=
    match feeds with
    | Some (f :: fs) => f :: fs
    | Some [] => RSS_FEEDS
    | None => RSS_FEEDS
    end in
  mkNewsFetcher chosen ∅.

(** [hasattr(entry, name) and entry.name]: the tuple when it is there and
    truthy (non-empty). *)
Definition truthy_tuple (t : option (list Z)) : option (list Z) :=
  match t with
  | Some (x :: l) => Some (x :: l)
  | Some [] => None
  | None => None
  end.

(** [try: return datetime(...) / except: pass]: the datetime when the
    constructor succeeds. *)
Definition try_datetime (t : option (list Z)) : option datetime :=
  match truthy_tuple t with
  | Some fields => of_tuple fields
  | None => None
  end.

(** Lines 175-191. *)
Definition _parse_date (env : Env) (entry : Entry) : M datetime :=
  match try_datetime (published_parsed entry) with
  | Some d => ret d
  | None =>
      match try_datetime (updated_parsed entry) with
      | Some d => ret d
      | None => datetime_now env
      end
  end.

(** Line 116, [entry.get("summary", "")]: the text under ["summary"], the
    empty text when the key is missing. *)
Definition summary_text (entry : Entry) : string :=
  match entry_summary entry with
  | Some (Text s) => s
  | _ => ""
  end.

(** Line 116, the slice: the exception it raises when what is under
    ["summary"] is no text. *)
Definition summary_error (entry : Entry) : option exn :=
  match entry_summary entry with
  | Some (Unsliceable e) => Some e
  | _ => None
  end.

(** Lines 111-117: the dictionary built for an entry that is kept, when
    building it does not raise. *)
Definition make_article (feed_url : string) (feed : Feed) (entry : Entry)
    (published : datetime) : Article :=
  mkArticle (default "No title" (entry_title entry))
            (default "" (entry_link entry))
            (default feed_url (feed_title feed))
            (Some published)
            (str_prefix 500 (summary_text entry))
            None.

(** Lines 105-118: the loop over [feed.entries], appending to
    [all_articles].  The loop runs inside the [try] of line 101 and
    [append] changes the list in place: when an entry raises, what was
    appended before it stays.  So the loop returns the list as it stands
    when it ends, together with the exception that ended it, if one did.
    The only statement of the body that can raise on an entry is the
    construction of the dictionary, which is reached for a recent entry
    only. *)
Fixpoint entries_loop (env : Env) (cutoff_time : datetime) (feed_url : string)
    (feed : Feed) (es : list Entry) (all_articles : list Article)
  : M (list Article * option exn) :=
  match es with
  | [] => ret (all_articles, None)
  | entry :: rest =>
      published <- _parse_date env entry ;;
      if cutoff_time <? published then
        match summary_error entry with
        | Some e => ret (all_articles, Some e)
        | None =>
            entries_loop env cutoff_time feed_url feed rest
                         (all_articles ++
                          [make_article feed_url feed entry published])
        end
      else
        entries_loop env cutoff_time feed_url feed rest all_articles
  end.

(** Lines 100-122: the loop over [self.feeds].  The [try] covers the call
    of [feedparser.parse] and the loop over the entries.  When the call
    raises, nothing was appended for this source; when an entry raises,
    [all_articles] holds what the entries before it added.  Either way the
    handler logs the error and the loop goes on with the next source. *)
Fixpoint feeds_loop (env : Env) (cutoff_time : datetime) (urls : list string)
    (all_articles : list Article) : M (list Article) :=
  match urls with
  | [] => ret all_articles
  | feed_url :: rest =>
      r <- try_except
             (logger (Info_fetching_from feed_url) ;;;
              feed <- feedparser_parse env feed_url ;;
              entries_loop env cutoff_time feed_url feed (entries feed)
                           all_articles)
             (fun e => ret (all_articles, Some e)) ;;
      match snd r with
      | Some e => logger (Error_fetching feed_url e)
      | None => ret tt
      end ;;;
      feeds_loop env cutoff_time rest (fst r)
  end.

(** Lines 136-138: [enumerate] from [i]. *)
Fixpoint id_loop (i : Z) (articles : list Article) : M (list Article) :=
  match articles with
  | [] => ret []
  | article :: rest =>
      let article' := set_id article i in
      cache_store i article' ;;;
      rest' <- id_loop (i + 1) rest ;;
      ret (article' :: rest')
  end.

(** Lines 85-141. *)
Definition fetch_recent_news (env : Env) (hours : Z) (limit : Z)
  : M (list Article) :=
  now <- datetime_now env ;;
  cutoff_time <- minus_hours now hours ;;
  set_cache ∅ ;;;
  self <- get_this ;;
  all_articles <- feeds_loop env cutoff_time (feeds self) [] ;;
  all_articles <- sort_by_published all_articles ;;
  all_articles <- filter_stale_articles env all_articles 24 ;;
  all_articles <- id_loop 0 (slice_to limit all_articles) ;;
  logger (Info_fetched (length all_articles)) ;;;
  ret all_articles.

(** Lines 143-155.  [a["id"]] raises [KeyError] on a record without id. *)
Fixpoint headlines_of (articles : list Article) : M (list Headline) :=
  match articles with
  | [] => ret []
  | a :: rest =>
      match id a with
      | Some i =>
          hs <- headlines_of rest ;;
          ret (mkHeadline i (title a) (source a) :: hs)
      | None => raise (KeyError "id")
      end
  end.

Definition get_all_headlines (env : Env) (hours : Z) (limit : Z)
  : M (list Headline) :=
  articles <- fetch_recent_news env hours limit ;;
  headlines_of articles.

(** Lines 157-173. *)
Fixpoint get_articles_by_ids (ids : list Z) : M (list Article) :=
  match ids with
  | [] => ret []
  | article_id :: rest =>
      self <- get_this ;;
      match _articles_cache self !! article_id with
      | Some a =>
          articles <- get_articles_by_ids rest ;;
          ret (a :: articles)
      | None =>
          logger (Warning_id_not_found article_id) ;;;
          get_articles_by_ids rest
      end
  end.

(* ===================================================================== *)
(** ** Vocabulary of the statements *)
(* ===================================================================== *)

(** The age test of line 51 as a boolean. *)
Definition is_old (cutoff : datetime) (a : Article) : bool :=
  match published a with
  | Some d => d <? cutoff
  | None => false
  end.

(** The stale-year test of lines 58-64 as a boolean. *)
Definition has_stale_year (a : Article) : bool :=
  match stale_year_scan STALE_YEAR_PATTERNS (text_to_check a) with
  | Some _ => true
  | None => false
  end.

(** An article that neither check rejects. *)
Definition passes (cutoff : datetime) (a : Article) : bool :=
  negb (is_old cutoff a) && negb (has_stale_year a).

(** The world after some more log records. *)
Definition logged (w : World) (rs : list LogRecord) : World :=
  mkWorld (tick w) (log w ++ rs) (this w).

(** The same environment with another [feedparser.parse]. *)
Definition with_parse (env : Env) (p : nat -> string -> Outcome Feed) : Env :=
  mkEnv (clock env) p (STRICT_24H_FILTER env).

(** The environment as it is right after the module is imported. *)
Definition env_at_import (clk : nat -> datetime)
    (p : nat -> string -> Outcome Feed) : Env :=
  mkEnv clk p STRICT_24H_FILTER_at_import.

(** Lines 96-99: the state in which the loop over the feeds starts. *)
Definition loop_start (w : World) : World :=
  mkWorld (S (tick w)) (log w) (mkNewsFetcher (feeds (this w)) ∅).

(** The record at position [i] of a result list, for an integer id. *)
Definition at_id (res : list Article) (i : Z) : option Article :=
  if 0 <=? i then res !! Z.to_nat i else None.

(** The last character of [prev] followed by [s]. *)
Fixpoint last_char (prev : option ascii) (s : string) : option ascii :=
  match s with
  | EmptyString => prev
  | String c s' => last_char (Some c) s'
  end.

(** [lit] occurs in [text] as a whole word: the characters next to the
    occurrence, if any, are not word characters. *)
Definition whole_word_in (lit text : string) : Prop :=
  exists pre post,
    text = pre +:+ lit +:+ post /\
    Re.is_word_opt (last_char None pre) = false /\
    Re.is_word_opt (Re.head_char post) = false.

(** [lit] occurs somewhere in [text]. *)
Fixpoint is_substring (lit text : string) : bool :=
  String.prefix lit text ||
  match text with
  | EmptyString => false
  | String _ text' => is_substring lit text'
  end.

(** The world [n] oracle calls later. *)
Definition advance (n : nat) (w : World) : World :=
  mkWorld (n + tick w) (log w) (this w).

(** The articles of [l] numbered from [i] on. *)
Fixpoint number_from (i : Z) (l : list Article) : list Article :=
  match l with
  | [] => []
  | a :: l' => set_id a i :: number_from (i + 1) l'
  end.

(** What the loop over the feeds appends: dictionaries with a
    ['published'] date after the recency cutoff and no ['id'] yet. *)
Definition candidate (cutoff_time : datetime) (a : Article) : Prop :=
  id a = None /\ exists p, published a = Some p /\ cutoff_time < p.

(** The two dates of an entry, tried in the order of [_parse_date]. *)
Definition parsed_date (entry : Entry) : option datetime :=
  match try_datetime (published_parsed entry) with
  | Some d => Some d
  | None => try_datetime (updated_parsed entry)
  end.

(** The date [_parse_date] gives [entry] in the world [w], and the world
    it leaves: the clock is read for an entry without a date only. *)
Definition stamp (env : Env) (entry : Entry) (w : World) : datetime :=
  match parsed_date entry with
  | Some d => d
  | None => clock env (tick w)
  end.

Definition stamped (entry : Entry) (w : World) : World :=
  match parsed_date entry with
  | Some _ => w
  | None => advance 1 w
  end.

(** Line 121: the error line of a source, when it raised. *)
Definition error_line (feed_url : string) (raised : option exn)
  : list LogRecord :=
  match raised with
  | Some e => [Error_fetching feed_url e]
  | None => []
  end.

(** Descending order of the keys of a decorated list. *)
Definition key_ge {A} (x y : Z * A) : Prop := fst y <= fst x.

(** Is the article dated exactly [k]? *)
Definition published_at (k : datetime) (a : Article) : bool :=
  match published a with
  | Some p => p =? k
  | None => false
  end.

(** Both articles are dated and [a] is at least as recent as [b]. *)
Definition not_older (a b : Article) : Prop :=
  exists p q, published a = Some p /\ published b = Some q /\ q <= p.

(** Lines 132-141: what [fetch_recent_news] does after the sort. *)
Definition after_sort (env : Env) (limit : Z) (sorted : list Article)
  : M (list Article) :=
  all_articles <- filter_stale_articles env sorted 24 ;;
  all_articles <- id_loop 0 (slice_to limit all_articles) ;;
  logger (Info_fetched (length all_articles)) ;;;
  ret all_articles.

(** What the stale-data filter lets through when it reads [now] on the
    clock. *)
Definition kept (env : Env) (now : datetime) (sorted : list Article)
  : list Article :=
  if STRICT_24H_FILTER env
  then List.filter (passes (now - 24 * US_PER_HOUR)) sorted
  else sorted.

(** Is [i] not the id of a record of [res]? *)
Definition missing (res : list Article) (i : Z) : bool :=
  match at_id res i with
  | Some _ => false
  | None => true
  end.




(** Two entries that are the same but for the summary text past its
    first 500 characters: a summary that is no text is the same in both. *)
Definition same_up_to_500 (e1 e2 : Entry) : Prop :=
  entry_title e1 = entry_title e2 /\
  entry_link e1 = entry_link e2 /\
  published_parsed e1 = published_parsed e2 /\
  updated_parsed e1 = updated_parsed e2 /\
  summary_error e1 = summary_error e2 /\
  str_prefix 500 (summary_text e1) = str_prefix 500 (summary_text e2).

Definition feeds_agree (f1 f2 : Feed) : Prop :=
  feed_title f1 = feed_title f2 /\
  Forall2 same_up_to_500 (entries f1) (entries f2).

(** Two behaviours of [feedparser.parse] that differ in such summary
    tails only. *)
Definition oracles_agree (p p' : nat -> string -> Outcome Feed) : Prop :=
  forall t feed_url,
    match p t feed_url, p' t feed_url with
    | Ok f1, Ok f2 => feeds_agree f1 f2
    | Raise e1, Raise e2 => e1 = e2
    | _, _ => False
    end.

(* ===================================================================== *)
(** ** Concrete runs *)
(* ===================================================================== *)

(** One feed with four entries, fetched at noon of 3 November 2026: an
    entry dated now, one an hour old, one 25 hours old, and one an hour old
    whose summary speaks of 2023. *)
Module Scenario.

Definition noon : datetime :=
  Eval cbv in default 0 (of_tuple [2026; 11; 3; 12; 0; 0; 1; 307; 0]).

Definition dated (t s : string) (d : list Z) : Entry :=
  mkEntry (Some t) (Some "https://example.org/item") (Some (Text s)) (Some d)
          None.

Definition entry_now : Entry :=
  dated "Markets open higher" "Stocks rose at the open."
        [2026; 11; 3; 12; 0; 0; 1; 307; 0].
Definition entry_1h : Entry :=
  dated "New compiler release" "The release fixes several bugs."
        [2026; 11; 3; 11; 0; 0; 1; 307; 0].
Definition entry_25h : Entry :=
  dated "Weather report" "Rain in the north."
        [2026; 11; 2; 11; 0; 0; 0; 306; 0].
Definition entry_2023 : Entry :=
  dated "Retrospective" "in 2023 the project changed hands"
        [2026; 11; 3; 11; 0; 0; 1; 307; 0].

Definition four : list Entry := [entry_now; entry_1h; entry_25h; entry_2023].

(** The feed may list its entries in any order. *)
Definition feed_of (es : list Entry) : Feed := mkFeed (Some "Example Feed") es.

Definition feed : Feed := feed_of four.

Definition url : string := "https://example.org/rss".

(** Any clock will do as long as the call happens within the hour. *)
Definition env_of (clk : nat -> datetime) (es : list Entry) : Env :=
  env_at_import clk (fun _ _ => Ok (feed_of es)).

Definition env (clk : nat -> datetime) : Env := env_of clk four.

Definition frozen : Env := env (fun _ => noon).

Definition start : World := mkWorld 0 [] (__init__ [url] None).

Definition article_now : Article :=
  mkArticle "Markets open higher" "https://example.org/item" "Example Feed"
            (Some noon) "Stocks rose at the open." (Some 0).
Definition article_1h : Article :=
  mkArticle "New compiler release" "https://example.org/item" "Example Feed"
            (Some (noon - US_PER_HOUR)) "The release fixes several bugs."
            (Some 1).

Definition result : list Article := [article_now; article_1h].

(** Two fresh articles whose title and summary, put together, contain
    2024: inside a longer number, and across the title's end. *)
Definition article_20245 : Article :=
  mkArticle "Model 20245 shipped" "" "Example Feed" (Some noon) "" None.
Definition article_split : Article :=
  mkArticle "Top 20" "" "Example Feed" (Some noon) "24 hours of racing" None.

(** A fresh article that speaks of 2023 and a fresh one that does not. *)
Definition article_stale : Article :=
  mkArticle "Retrospective" "" "Example Feed" (Some noon)
            "in 2023 the project changed hands" None.
Definition article_clean : Article :=
  mkArticle "Markets open higher" "" "Example Feed" (Some noon)
            "Stocks rose at the open." None.

(** An entry without any date, alone in its feed. *)
Definition entry_undated : Entry :=
  mkEntry (Some "Undated item") (Some "https://example.org/item")
          (Some (Text "No date here.")) None None.
Definition feed_undated : Feed := mkFeed (Some "Example Feed") [entry_undated].

Definition undated : Env :=
  env_at_import (fun _ => noon) (fun _ _ => Ok feed_undated).

(** The first source answers at once with the undated entry; the second
    one, empty, keeps the call waiting for 25 hours. *)
Definition url_slow : string := "https://slow.example.org/rss".
Definition stalled : Env :=
  env_at_import
    (fun t => if (t <? 3)%nat then noon else noon + 25 * US_PER_HOUR)
    (fun _ u => if String.eqb u url_slow then Ok (mkFeed None [])
                else Ok feed_undated).
Definition start_two : World := mkWorld 0 [] (__init__ [url; url_slow] None).

(** Two sources, the first of which is down. *)
Definition url_down : string := "https://down.example.org/rss".
Definition start_down : World := mkWorld 0 [] (__init__ [url_down; url] None).
Definition parse_down (t : nat) (u : string) : Outcome Feed :=
  if String.eqb u url_down then Raise (FeedError "connection refused")
  else Ok feed.
Definition down : Env := env_at_import (fun _ => noon) parse_down.

(** A source whose second entry holds [None] under ["summary"]: the slice
    of line 116 raises on it. *)
Definition not_subscriptable : exn :=
  TypeError "'NoneType' object is not subscriptable".

(** A summary of 500 harmless characters followed by a mention of 2024,
    and the same summary with another tail. *)
Definition padding : string := string_of_list_ascii (List.repeat "a"%char 500).
Definition entry_long (tail : string) : Entry :=
  dated "Long read" (padding +:+ tail) [2026; 11; 3; 11; 0; 0; 1; 307; 0].
Definition long_2024 : Env :=
  env_at_import (fun _ => noon)
    (fun _ _ => Ok (mkFeed (Some "Example Feed") [entry_long " back in 2024"])).
Definition parse_long_clean (t : nat) (u : string) : Outcome Feed :=
  Ok (mkFeed (Some "Example Feed") [entry_long " and so on"]).

(** The same world with the switch set to [False]. *)
Definition disabled : Env := mkEnv (fun _ => noon) (fun _ _ => Ok feed) false.

(** A fetcher built with an explicit empty list while [RSS_FEEDS] has one
    source, and one built when [RSS_FEEDS] itself is empty. *)
Definition start_explicit_empty : World :=
  mkWorld 0 [] (__init__ [url] (Some [])).
Definition start_no_feeds : World := mkWorld 0 [] (__init__ [] None).

(** The state the frozen-clock call with [hours=48], [limit=50] leaves. *)
Definition after_fetch : World :=
  snd (fetch_recent_news frozen 48 50 start).

End Scenario.

(* ===================================================================== *)
(** ** Vocabulary of the further properties *)
(* ===================================================================== *)

(** The headline of each article of [l], the ids counted from [i]. *)
Fixpoint headlines_from (i : Z) (l : list Article) : list Headline :=
  match l with
  | [] => []
  | a :: l' => mkHeadline i (title a) (source a) :: headlines_from (i + 1) l'
  end.

(** The article comes from [entry], an entry of the feed that
    [feedparser.parse] returned for [feed_url] at some tick, dated [p] by
    [_parse_date]. *)
Definition built_from (env : Env) (feed_url : string) (feed : Feed)
    (entry : Entry) (p : datetime) (a : Article) : Prop :=
  (exists t, parse_oracle env t feed_url = Ok feed) /\
  In entry (entries feed) /\
  (parsed_date entry = Some p \/
   parsed_date entry = None /\ exists t, p = clock env t) /\
  summary_error entry = None /\
  a = make_article feed_url feed entry p.

(** The source [feed_url] raised [e]: [feedparser.parse] did, or the slice
    of the summary of an entry of a feed it returned. *)
Definition source_raised (env : Env) (feed_url : string) (e : exn) : Prop :=
  (exists t, parse_oracle env t feed_url = Raise e) \/
  (exists t feed entry,
     parse_oracle env t feed_url = Ok feed /\
     In entry (entries feed) /\ summary_error entry = Some e).

(** Lines 51-64 for one article: the debug record of the first rule that
    rejects it, if one does. *)
Definition rejection (now cutoff : datetime) (a : Article) : option LogRecord :=
  match too_old (published a) now cutoff with
  | Some age => Some (Debug_rejected_age age (str_prefix 50 (title a)))
  | None =>
      match stale_year_scan STALE_YEAR_PATTERNS (text_to_check a) with
      | Some pattern =>
          Some (Debug_rejected_stale_year pattern (str_prefix 50 (title a)))
      | None => None
      end
  end.

(** The feed a log record says is being fetched. *)
Definition fetching (r : LogRecord) : option string :=
  match r with
  | Info_fetching_from feed_url => Some feed_url
  | _ => None
  end.

(** The failure a log record reports. *)
Definition failure (r : LogRecord) : option (string * exn) :=
  match r with
  | Error_fetching feed_url e => Some (feed_url, e)
  | _ => None
  end.

(** Line 110 as a test on the article built: is it dated after the
    cutoff? *)
Definition recent (cutoff_time : datetime) (a : Article) : bool :=
  match published a with
  | Some p => cutoff_time <? p
  | None => false
  end.

(** Does the character [c] occur in [s]? *)
Fixpoint has_char (c : ascii) (s : string) : bool :=
  match s with
  | EmptyString => false
  | String x s' => Ascii.eqb x c || has_char c s'
  end.

(* ===================================================================== *)
(** ** More concrete runs *)
(* ===================================================================== *)

Module Runs.

(** The run of [Scenario] limited to one article. *)
Definition after_one : World :=
  snd (fetch_recent_news Scenario.frozen 48 1 Scenario.start).

(** The run of [Scenario] with a window of 100 hours. *)
Definition after_100 : World :=
  snd (fetch_recent_news Scenario.frozen 100 50 Scenario.start).

(** The run with the first of two sources down. *)
Definition after_down : World :=
  snd (fetch_recent_news Scenario.down 48 50 Scenario.start_down).

(** Every source down. *)
Definition all_down : Env :=
  env_at_import (fun _ => Scenario.noon)
                (fun _ _ => Raise (FeedError "connection refused")).

(** An entry 30 hours old with [None] under ["summary"], followed by a
    fresh entry. *)
Definition entry_stale_broken : Entry :=
  mkEntry (Some "Broken item") (Some "https://example.org/item")
          (Some (Unsliceable Scenario.not_subscriptable))
          (Some [2026; 11; 2; 6; 0; 0; 0; 306; 0]) None.
Definition stale_broken : Env :=
  env_at_import (fun _ => Scenario.noon)
    (fun _ _ => Ok (Scenario.feed_of [entry_stale_broken; Scenario.entry_now])).

(** A dictionary without a ['published'] key. *)
Definition article_no_date : Article :=
  mkArticle "Note" "" "Example Feed" None "Nothing dated here." None.

(** An article a week old. *)
Definition article_week_old : Article :=
  mkArticle "Last week" "" "Example Feed"
            (Some (Scenario.noon - 168 * US_PER_HOUR)) "in 2023, again" None.

End Runs.

(* ===================================================================== *)
(** * Properties *)
(* ===================================================================== *)

(** ** The monad *)

Lemma bind_Ok_inv {A B} (m : M A) (k : A -> M B) w b w2 :
  bind m k w = (Ok b, w2) ->
  exists a w1, m w = (Ok a, w1) /\ k a w1 = (Ok b, w2).
Proof.
  unfold bind. destruct (m w) as [[a|e] w1]; intros H.
  - exists a, w1. split; [reflexivity | exact H].
  - discriminate H.
Qed.

Lemma bind_run {A B} (m : M A) (k : A -> M B) w a w1 :
  m w = (Ok a, w1) -> bind m k w = k a w1.
Proof. unfold bind. intros ->. reflexivity. Qed.

Lemma bind_raise {A B} (m : M A) (k : A -> M B) w e w1 :
  m w = (Raise e, w1) -> bind m k w = (Raise e, w1).
Proof. unfold bind. intros ->. reflexivity. Qed.

Lemma logged_nil w : logged w [] = w.
Proof. destruct w. unfold logged. simpl. rewrite app_nil_r. reflexivity. Qed.

Lemma logged_logged w l1 l2 : logged (logged w l1) l2 = logged w (l1 ++ l2).
Proof. unfold logged. simpl. rewrite app_assoc. reflexivity. Qed.

Lemma logger_run r w : logger r w = (Ok tt, logged w [r]).
Proof. reflexivity. Qed.

(** ** The filter loop *)

Lemma filter_loop_accept now cutoff a rest fresh rejected w :
  passes cutoff a = true ->
  filter_loop now cutoff (a :: rest) fresh rejected w =
  filter_loop now cutoff rest (fresh ++ [a]) rejected w.
Proof.
  unfold passes, is_old, has_stale_year. intros H. cbn [filter_loop].
  unfold too_old.
  destruct (published a) as [d|].
  - destruct (d <? cutoff); [discriminate H|].
    destruct (stale_year_scan STALE_YEAR_PATTERNS (text_to_check a));
      [discriminate H | reflexivity].
  - destruct (stale_year_scan STALE_YEAR_PATTERNS (text_to_check a));
      [discriminate H | reflexivity].
Qed.

Lemma filter_loop_reject now cutoff a rest fresh rejected w :
  passes cutoff a = false ->
  exists r,
    filter_loop now cutoff (a :: rest) fresh rejected w =
    filter_loop now cutoff rest fresh (S rejected) (logged w [r]).
Proof.
  unfold passes, is_old, has_stale_year. intros H. cbn [filter_loop].
  unfold too_old.
  destruct (published a) as [d|].
  - destruct (d <? cutoff); [eexists; reflexivity|].
    destruct (stale_year_scan STALE_YEAR_PATTERNS (text_to_check a));
      [eexists; reflexivity | discriminate H].
  - destruct (stale_year_scan STALE_YEAR_PATTERNS (text_to_check a));
      [eexists; reflexivity | discriminate H].
Qed.

(** The loop returns the articles that pass, after those already accepted,
    and has counted each of the others once; it only writes log records. *)
Lemma filter_loop_run now cutoff articles :
  forall fresh rejected w,
  exists rs,
    filter_loop now cutoff articles fresh rejected w =
    (Ok (fresh ++ List.filter (passes cutoff) articles,
         (rejected + length (List.filter (fun a => negb (passes cutoff a)) articles))%nat),
     logged w rs).
Proof.
  induction articles as [|a rest IH]; intros fresh rejected w.
  - exists []. simpl. unfold ret. rewrite logged_nil, app_nil_r, Nat.add_0_r.
    reflexivity.
  - destruct (passes cutoff a) eqn:Hp.
    + rewrite (filter_loop_accept _ _ _ _ _ _ _ Hp).
      destruct (IH (fresh ++ [a]) rejected w) as [rs ->].
      exists rs. simpl. rewrite Hp. simpl. rewrite <- app_assoc. reflexivity.
    + destruct (filter_loop_reject now _ _ rest fresh rejected w Hp) as [r ->].
      destruct (IH fresh (S rejected) (logged w [r])) as [rs ->].
      exists (r :: rs). simpl. rewrite Hp. simpl. rewrite logged_logged.
      simpl. repeat f_equal. lia.
Qed.

Lemma filter_count {A} (f : A -> bool) (l : list A) :
  length (List.filter (fun x => negb (f x)) l) =
  (length l - length (List.filter f l))%nat.
Proof.
  induction l as [|x l IH]; [reflexivity|].
  simpl. assert (Hle := List.filter_length_le f l).
  destruct (f x); simpl; lia.
Qed.

(** ** [filter_stale_articles] *)

Lemma filter_stale_articles_disabled env articles h w :
  STRICT_24H_FILTER env = false ->
  filter_stale_articles env articles h w =
  (Ok articles, logged w [Warning_filter_disabled]).
Proof. unfold filter_stale_articles. intros ->. reflexivity. Qed.

Lemma filter_stale_articles_overflow env articles h w :
  STRICT_24H_FILTER env = true ->
  sub_hours (clock env (tick w)) h = None ->
  filter_stale_articles env articles h w = (Raise OverflowError, advance 1 w).
Proof.
  unfold filter_stale_articles. intros -> H. simpl.
  unfold bind, datetime_now, minus_hours. rewrite H. reflexivity.
Qed.

Lemma filter_stale_articles_enabled env articles h w cutoff :
  STRICT_24H_FILTER env = true ->
  sub_hours (clock env (tick w)) h = Some cutoff ->
  let fresh := List.filter (passes cutoff) articles in
  exists rs,
    filter_stale_articles env articles h w =
    (Ok fresh,
     logged (advance 1 w)
       (rs ++ Info_stale_filter (length fresh) (length articles - length fresh) cutoff
           :: (if Nat.eqb (length fresh) 0 then [Warning_all_filtered_out] else []))).
Proof.
  intros Hs H fresh. unfold filter_stale_articles. rewrite Hs. simpl.
  unfold bind at 1. unfold datetime_now.
  unfold bind at 1. unfold minus_hours. rewrite H. unfold ret at 1.
  destruct (filter_loop_run (clock env (tick w)) cutoff articles [] 0%nat (advance 1 w))
    as [rs Hrs].
  exists rs. unfold bind at 1. unfold advance in Hrs. simpl in Hrs.
  rewrite Hrs. cbn [fst snd]. fold fresh.
  rewrite filter_count. fold fresh. simpl.
  unfold bind at 1. rewrite logger_run, logged_logged.
  unfold bind at 1.
  destruct (Nat.eqb (length fresh) 0).
  - rewrite logger_run, logged_logged. unfold ret. rewrite <- app_assoc.
    reflexivity.
  - unfold ret. reflexivity.
Qed.

(** ** The loops of [fetch_recent_news] *)

Lemma mkWorld_eq t t' l l' x :
  t = t' -> l = l' -> mkWorld t l x = mkWorld t' l' x.
Proof. intros -> ->. reflexivity. Qed.

Ltac same_run :=
  apply (f_equal2 pair); [reflexivity|];
  apply mkWorld_eq; [lia | try reflexivity].

Lemma advance_0 w : advance 0 w = w.
Proof. destruct w. reflexivity. Qed.

Lemma advance_advance n m w : advance n (advance m w) = advance (n + m) w.
Proof. unfold advance. simpl. f_equal. lia. Qed.

(** [_parse_date] always returns: the first date that can be built, else
    the clock, which it reads only in that last case. *)
Lemma _parse_date_run env entry w :
  _parse_date env entry w =
  match parsed_date entry with
  | Some d => (Ok d, w)
  | None => (Ok (clock env (tick w)), advance 1 w)
  end.
Proof.
  unfold _parse_date, parsed_date.
  destruct (try_datetime (published_parsed entry)); [reflexivity|].
  destruct (try_datetime (updated_parsed entry)); reflexivity.
Qed.

Lemma _parse_date_stamp env entry w :
  _parse_date env entry w = (Ok (stamp env entry w), stamped entry w).
Proof.
  rewrite _parse_date_run. unfold stamp, stamped.
  destruct (parsed_date entry); reflexivity.
Qed.

Lemma stamped_advance entry w :
  exists k, stamped entry w = advance k w.
Proof.
  unfold stamped. destruct (parsed_date entry).
  - exists 0%nat. rewrite advance_0. reflexivity.
  - exists 1%nat. reflexivity.
Qed.

(** One step of the loop over the entries. *)
Lemma entries_loop_cons env c url feed entry rest acc w :
  entries_loop env c url feed (entry :: rest) acc w =
  if c <? stamp env entry w then
    match summary_error entry with
    | Some e => (Ok (acc, Some e), stamped entry w)
    | None =>
        entries_loop env c url feed rest
          (acc ++ [make_article url feed entry (stamp env entry w)])
          (stamped entry w)
    end
  else entries_loop env c url feed rest acc (stamped entry w).
Proof.
  cbn [entries_loop]. unfold bind. rewrite _parse_date_stamp.
  destruct (c <? stamp env entry w); [|reflexivity].
  destruct (summary_error entry); reflexivity.
Qed.

(** The loop over the entries always returns; it only appends, and what
    it appends are candidates. *)
Lemma entries_loop_run env c url feed es :
  forall acc w,
  exists new n raised,
    entries_loop env c url feed es acc w =
      (Ok (acc ++ new, raised), advance n w) /\
    Forall (candidate c) new.
Proof.
  induction es as [|entry rest IH]; intros acc w.
  - exists [], 0%nat, None. rewrite advance_0, app_nil_r.
    split; [reflexivity|constructor].
  - rewrite entries_loop_cons.
    destruct (stamped_advance entry w) as [k ->].
    destruct (c <? stamp env entry w) eqn:Hc.
    + destruct (summary_error entry) as [e|].
      * exists [], k, (Some e). rewrite app_nil_r.
        split; [reflexivity|constructor].
      * destruct (IH (acc ++ [make_article url feed entry (stamp env entry w)])
                     (advance k w)) as (new & n & raised & Hrun & Hnew).
        exists (make_article url feed entry (stamp env entry w) :: new),
               (n + k)%nat, raised.
        rewrite Hrun, advance_advance, <- app_assoc. split; [reflexivity|].
        constructor; [|exact Hnew].
        split; [reflexivity|]. eexists. split; [reflexivity|]. lia.
    + destruct (IH acc (advance k w)) as (new & n & raised & Hrun & Hnew).
      exists new, (n + k)%nat, raised. rewrite Hrun, advance_advance. tauto.
Qed.

Lemma error_line_run url raised w :
  match raised with
  | Some e => logger (Error_fetching url e)
  | None => ret tt
  end w = (Ok tt, logged w (error_line url raised)).
Proof.
  destruct raised; [reflexivity|]. unfold ret. cbn [error_line].
  rewrite logged_nil. reflexivity.
Qed.

(** One step of the loop over the feeds. *)
Lemma feeds_loop_cons env c url rest acc w :
  feeds_loop env c (url :: rest) acc w =
  match parse_oracle env (tick w) url with
  | Ok feed =>
      bind (entries_loop env c url feed (entries feed) acc)
           (fun r wr => feeds_loop env c rest (fst r)
                          (logged wr (error_line url (snd r))))
           (logged (advance 1 w) [Info_fetching_from url])
  | Raise e =>
      feeds_loop env c rest acc
        (logged (advance 1 w) [Info_fetching_from url; Error_fetching url e])
  end.
Proof.
  cbn [feeds_loop]. unfold bind at 1, try_except, bind at 1.
  rewrite logger_run. unfold bind at 1, feedparser_parse.
  cbn [tick log this logged].
  destruct (parse_oracle env (tick w) url) as [feed|e].
  - destruct (entries_loop_run env c url feed (entries feed) acc
                (logged (advance 1 w) [Info_fetching_from url]))
      as (new & n & raised & Hrun & _).
    unfold bind at 2.
    unfold advance, logged in Hrun |- *. cbn [tick log this Nat.add] in Hrun |- *.
    rewrite Hrun. cbn [fst snd]. unfold bind. rewrite error_line_run.
    reflexivity.
  - unfold ret at 1. cbn [fst snd]. unfold bind. rewrite logger_run.
    unfold advance, logged. cbn [tick log this Nat.add].
    rewrite <- app_assoc. reflexivity.
Qed.

(** The loop over the feeds never raises. *)
Lemma feeds_loop_run env c urls :
  forall acc w,
  exists new n rs,
    feeds_loop env c urls acc w = (Ok (acc ++ new), logged (advance n w) rs) /\
    Forall (candidate c) new.
Proof.
  induction urls as [|url rest IH]; intros acc w.
  - exists [], 0%nat, []. rewrite advance_0, logged_nil, app_nil_r.
    split; [reflexivity|constructor].
  - rewrite feeds_loop_cons.
    destruct (parse_oracle env (tick w) url) as [feed|e].
    + destruct (entries_loop_run env c url feed (entries feed) acc
                  (logged (advance 1 w) [Info_fetching_from url]))
        as (new1 & n1 & raised & Hrun1 & Hnew1).
      rewrite (bind_run _ _ _ _ _ Hrun1). cbn [fst snd].
      match goal with |- context [feeds_loop env c rest (acc ++ new1) ?w1] =>
        destruct (IH (acc ++ new1) w1) as (new2 & n2 & rs2 & Hrun2 & Hnew2)
      end.
      exists (new1 ++ new2), (n2 + (n1 + 1))%nat,
             (Info_fetching_from url :: error_line url raised ++ rs2).
      rewrite Hrun2. unfold advance, logged. cbn [tick log this].
      rewrite <- !app_assoc. split.
      * same_run.
      * apply Forall_app; tauto.
    + match goal with |- context [feeds_loop env c rest acc ?w1] =>
        destruct (IH acc w1) as (new2 & n2 & rs2 & Hrun2 & Hnew2)
      end.
      exists new2, (n2 + 1)%nat,
             (Info_fetching_from url :: Error_fetching url e :: rs2).
      rewrite Hrun2. unfold advance, logged. cbn [tick log this].
      rewrite <- !app_assoc. split; [|exact Hnew2].
      same_run.
Qed.

(** ** Numbering and the cache *)

Lemma number_from_length l : forall i, length (number_from i l) = length l.
Proof. induction l as [|a l IH]; intros i; simpl; [|rewrite IH]; reflexivity. Qed.

Lemma number_from_lookup l :
  forall i (j : nat),
    number_from i l !! j = (fun a => set_id a (i + Z.of_nat j)) <$> (l !! j).
Proof.
  induction l as [|a l IH]; intros i j; [reflexivity|].
  destruct j as [|j]; simpl.
  - rewrite Z.add_0_r. reflexivity.
  - rewrite IH. destruct (l !! j); simpl; [|reflexivity].
    do 2 f_equal. lia.
Qed.

Lemma without_id_number_from l :
  forall i, Forall (fun a => id a = None) l ->
            map without_id (number_from i l) = l.
Proof.
  induction l as [|a l IH]; intros i H; [reflexivity|].
  inversion H as [|? ? Ha Hl]; subst. simpl. rewrite (IH _ Hl).
  f_equal. destruct a as [t lk s p sm i0]. simpl in Ha. subst i0. reflexivity.
Qed.

(** The loop returns the records numbered from [i] and stores each under
    its number; other keys of the cache are left alone. *)
Lemma id_loop_run l :
  forall i w,
  exists c',
    id_loop i l w =
    (Ok (number_from i l),
     mkWorld (tick w) (log w) (mkNewsFetcher (feeds (this w)) c')) /\
    forall k : Z,
      c' !! k =
      if (i <=? k) && (k <? i + Z.of_nat (length l))
      then number_from i l !! Z.to_nat (k - i)
      else _articles_cache (this w) !! k.
Proof.
  induction l as [|a l IH]; intros i w.
  - exists (_articles_cache (this w)). split.
    + destruct w as [t lg [f c]]. reflexivity.
    + intros k. cbn [length number_from].
      destruct (Z.leb_spec i k), (Z.ltb_spec k (i + Z.of_nat 0));
        cbn [andb]; try lia; reflexivity.
  - cbn [id_loop]. unfold bind at 1, cache_store.
    match goal with |- context [bind (id_loop (i + 1) l) _ ?w1] =>
      destruct (IH (i + 1) w1) as (c' & Hrun & Hc')
    end.
    exists c'. unfold bind at 1. rewrite Hrun. unfold ret.
    cbn [tick log this feeds _articles_cache] in *. split; [reflexivity|].
    intros k. rewrite Hc'. cbn [length number_from].
    destruct (Z.leb_spec i k), (Z.ltb_spec k (i + Z.of_nat (S (length l)))),
             (Z.leb_spec (i + 1) k), (Z.ltb_spec k (i + 1 + Z.of_nat (length l)));
      cbn [andb]; try lia.
    + replace (Z.to_nat (k - i)) with (S (Z.to_nat (k - (i + 1)))) by lia.
      reflexivity.
    + assert (k = i) as -> by lia. rewrite Z.sub_diag. apply lookup_insert_eq.
    + apply lookup_insert_ne. lia.
    + apply lookup_insert_ne. lia.
Qed.

(** ** The sort *)

Section Sort.
Context {A : Type}.

Lemma insert_desc_perm k (x : A) l : Permutation (insert_desc k x l) ((k, x) :: l).
Proof.
  induction l as [|[k' y] l IH]; simpl; [reflexivity|].
  destruct (k' <=? k); [reflexivity|].
  rewrite IH. apply perm_swap.
Qed.

Lemma sort_desc_perm (l : list (Z * A)) : Permutation (sort_desc l) l.
Proof.
  induction l as [|[k x] l IH]; simpl; [reflexivity|].
  rewrite insert_desc_perm, IH. reflexivity.
Qed.

Lemma insert_desc_sorted k (x : A) l :
  StronglySorted key_ge l -> StronglySorted key_ge (insert_desc k x l).
Proof.
  induction l as [|[k' y] l IH]; intros Hs; simpl.
  - constructor; constructor.
  - inversion Hs as [|? ? Hs' Hall]; subst.
    destruct (k' <=? k) eqn:Hk.
    + constructor; [exact Hs|].
      constructor; [unfold key_ge; simpl; lia|].
      eapply Forall_impl; [exact Hall|].
      intros [k2 z]. unfold key_ge. simpl. lia.
    + constructor; [apply IH; exact Hs'|].
      rewrite insert_desc_perm. constructor; [unfold key_ge; simpl; lia|exact Hall].
Qed.

Lemma sort_desc_sorted (l : list (Z * A)) : StronglySorted key_ge (sort_desc l).
Proof.
  induction l as [|[k x] l IH]; simpl; [constructor|].
  apply insert_desc_sorted, IH.
Qed.

(** Stability: among the elements with one key, the order is kept. *)
Lemma insert_desc_stable j k (x : A) l :
  List.filter (fun z => fst z =? j) (insert_desc k x l) =
  List.filter (fun z => fst z =? j) ((k, x) :: l).
Proof.
  induction l as [|[k' y] l IH]; [reflexivity|].
  cbn [insert_desc]. destruct (k' <=? k) eqn:Hk; [reflexivity|].
  cbn [List.filter fst] in *. rewrite IH.
  destruct (k' =? j) eqn:H1; destruct (k =? j) eqn:H2; try reflexivity.
  lia.
Qed.

Lemma sort_desc_stable j (l : list (Z * A)) :
  List.filter (fun z => fst z =? j) (sort_desc l) =
  List.filter (fun z => fst z =? j) l.
Proof.
  induction l as [|[k x] l IH]; [reflexivity|].
  cbn [sort_desc]. rewrite insert_desc_stable. cbn [List.filter].
  rewrite IH. reflexivity.
Qed.
End Sort.

Lemma published_keys_Some l :
  forall kl,
    published_keys l = Some kl ->
    map snd kl = l /\ Forall (fun z => published (snd z) = Some (fst z)) kl.
Proof.
  induction l as [|a l IH]; intros kl H; simpl in H.
  - inversion H. split; constructor.
  - destruct (published a) as [p|] eqn:Hp; [|discriminate H].
    destruct (published_keys l) as [kl'|]; [|discriminate H].
    inversion H; subst. destruct (IH kl' eq_refl) as [Hm Hf].
    split; [simpl; rewrite Hm; reflexivity|].
    constructor; [exact Hp | exact Hf].
Qed.

Lemma published_keys_candidates c l :
  Forall (candidate c) l -> exists kl, published_keys l = Some kl.
Proof.
  induction 1 as [|a l [_ (p & Hp & _)] _ [kl IH]]; simpl.
  - eexists; reflexivity.
  - rewrite Hp, IH. eexists; reflexivity.
Qed.

Lemma StronglySorted_map {A B} (R : A -> A -> Prop) (R' : B -> B -> Prop)
    (P : A -> Prop) (f : A -> B) l :
  (forall x y, P x -> P y -> R x y -> R' (f x) (f y)) ->
  Forall P l -> StronglySorted R l -> StronglySorted R' (map f l).
Proof.
  intros HR HP Hs. induction Hs as [|x l Hs IH Hall]; simpl; [constructor|].
  inversion HP as [|? ? Hx Hl]; subst.
  constructor; [apply IH; exact Hl|].
  apply Forall_map. rewrite Forall_forall in *.
  intros y Hy. apply HR; auto.
Qed.

Lemma filter_published_at_keys k (kl : list (Z * Article)) :
  Forall (fun z => published (snd z) = Some (fst z)) kl ->
  List.filter (published_at k) (map snd kl) =
  map snd (List.filter (fun z => fst z =? k) kl).
Proof.
  induction 1 as [|[j a] kl Ha _ IH]; [reflexivity|].
  simpl in *. unfold published_at at 1. rewrite Ha.
  destruct (j =? k); simpl; rewrite IH; reflexivity.
Qed.

(** On dated articles the sort never raises; it returns a permutation,
    newest first, in which articles with equal dates keep their order. *)
Lemma sort_by_published_run c l w :
  Forall (candidate c) l ->
  exists sorted,
    sort_by_published l w = (Ok sorted, w) /\
    Permutation sorted l /\
    StronglySorted not_older sorted /\
    forall k, List.filter (published_at k) sorted = List.filter (published_at k) l.
Proof.
  intros Hc. destruct (published_keys_candidates c l Hc) as [kl Hkl].
  destruct (published_keys_Some l kl Hkl) as [Hm Hf].
  exists (map snd (sort_desc kl)). unfold sort_by_published. rewrite Hkl.
  assert (Hf' : Forall (fun z => published (snd z) = Some (fst z)) (sort_desc kl)).
  { rewrite Forall_forall in *. intros z Hz. apply Hf.
    apply list_elem_of_In. rewrite <- (sort_desc_perm kl).
    apply list_elem_of_In. exact Hz. }
  split; [reflexivity|]. split; [|split].
  - rewrite <- Hm. apply Permutation_map, sort_desc_perm.
  - eapply StronglySorted_map; [|exact Hf'|apply sort_desc_sorted].
    intros [p a] [q b] Ha Hb Hge. simpl in *.
    exists p, q. unfold key_ge in Hge. simpl in Hge. auto.
  - intros k. rewrite (filter_published_at_keys k _ Hf'), sort_desc_stable.
    rewrite <- (filter_published_at_keys k _ Hf), Hm. reflexivity.
Qed.

(** ** [fetch_recent_news] as a whole *)

Lemma sub_hours_Some d h c : sub_hours d h = Some c -> c = d - h * US_PER_HOUR.
Proof.
  unfold sub_hours. destruct (in_range _); intros H; inversion H; reflexivity.
Qed.

Lemma fetch_recent_news_unfold env hours limit w :
  fetch_recent_news env hours limit w =
  match sub_hours (clock env (tick w)) hours with
  | None => (Raise OverflowError, advance 1 w)
  | Some cutoff_time =>
      bind (feeds_loop env cutoff_time (feeds (this w)) [])
           (fun all_articles =>
              bind (sort_by_published all_articles) (after_sort env limit))
           (loop_start w)
  end.
Proof.
  unfold fetch_recent_news. unfold bind at 1, datetime_now.
  unfold bind at 1, minus_hours.
  destruct (sub_hours (clock env (tick w)) hours); reflexivity.
Qed.

Lemma at_id_in_range (res : list Article) (k : Z) :
  (if (0 <=? k) && (k <? 0 + Z.of_nat (length res))
   then res !! Z.to_nat (k - 0) else None) = at_id res k.
Proof.
  unfold at_id. rewrite Z.sub_0_r.
  destruct (Z.leb_spec 0 k); [|reflexivity].
  destruct (Z.ltb_spec k (0 + Z.of_nat (length res))); [reflexivity|].
  symmetry. apply lookup_ge_None. lia.
Qed.

Lemma after_sort_inv env limit sorted w1 res w' :
  after_sort env limit sorted w1 = (Ok res, w') ->
  res = number_from 0 (slice_to limit (kept env (clock env (tick w1)) sorted)) /\
  tick w' = (if STRICT_24H_FILTER env then S (tick w1) else tick w1) /\
  feeds (this w') = feeds (this w1) /\
  forall k : Z,
    _articles_cache (this w') !! k =
    if (0 <=? k) && (k <? 0 + Z.of_nat (length res))
    then res !! Z.to_nat (k - 0)
    else _articles_cache (this w1) !! k.
Proof.
  unfold after_sort, kept. intros H.
  apply bind_Ok_inv in H. destruct H as (fresh & w2 & Hf & H).
  apply bind_Ok_inv in H. destruct H as (res' & w3 & Hi & H).
  unfold bind, logger, ret in H. inversion H; subst res' w'. clear H.
  destruct (id_loop_run (slice_to limit fresh) 0 w2) as (c' & Hrun & Hc').
  rewrite Hrun in Hi. inversion Hi; subst res w3. clear Hi.
  cbn [tick log this feeds _articles_cache].
  rewrite number_from_length in *.
  destruct (STRICT_24H_FILTER env) eqn:Hs.
  - destruct (sub_hours (clock env (tick w1)) 24) as [cutoff|] eqn:Hc.
    + destruct (filter_stale_articles_enabled env sorted 24 w1 cutoff Hs Hc)
        as [rs Hrs].
      rewrite Hrs in Hf. inversion Hf; subst fresh w2. clear Hf.
      apply sub_hours_Some in Hc. subst cutoff.
      repeat split; try reflexivity. exact Hc'.
    + rewrite (filter_stale_articles_overflow env sorted 24 w1 Hs Hc) in Hf.
      discriminate Hf.
  - rewrite (filter_stale_articles_disabled env sorted 24 w1 Hs) in Hf.
    inversion Hf; subst fresh w2. clear Hf.
    repeat split; try reflexivity. exact Hc'.
Qed.

(** Everything a successful call went through. *)
Lemma fetch_recent_news_inv env hours limit w res w' :
  fetch_recent_news env hours limit w = (Ok res, w') ->
  exists cutoff_time cands n rs sorted,
    sub_hours (clock env (tick w)) hours = Some cutoff_time /\
    feeds_loop env cutoff_time (feeds (this w)) [] (loop_start w) =
      (Ok cands, logged (advance n (loop_start w)) rs) /\
    Forall (candidate cutoff_time) cands /\
    Permutation sorted cands /\
    StronglySorted not_older sorted /\
    (forall k, List.filter (published_at k) sorted =
               List.filter (published_at k) cands) /\
    res = number_from 0
            (slice_to limit (kept env (clock env (n + S (tick w))) sorted)) /\
    tick w' = (if STRICT_24H_FILTER env then S (n + S (tick w))
               else (n + S (tick w))%nat) /\
    feeds (this w') = feeds (this w) /\
    forall k : Z, _articles_cache (this w') !! k = at_id res k.
Proof.
  rewrite fetch_recent_news_unfold. intros H.
  destruct (sub_hours (clock env (tick w)) hours) as [c|]; [|discriminate H].
  destruct (feeds_loop_run env c (feeds (this w)) [] (loop_start w))
    as (cands & n & rs & Hloop & Hcands).
  simpl in Hloop. rewrite (bind_run _ _ _ _ _ Hloop) in H.
  destruct (sort_by_published_run c cands (logged (advance n (loop_start w)) rs) Hcands)
    as (sorted & Hsort & Hperm & Hss & Hst).
  rewrite (bind_run _ _ _ _ _ Hsort) in H.
  apply after_sort_inv in H. destruct H as (Hres & Htick & Hfeeds & Hcache).
  exists c, cands, n, rs, sorted.
  repeat split; try assumption.
  intros k. rewrite Hcache. cbn [logged advance loop_start this _articles_cache].
  rewrite lookup_empty. apply at_id_in_range.
Qed.

(** The call raises nothing but the [OverflowError] of a cutoff that is no
    datetime. *)
Lemma fetch_recent_news_raises env hours limit w e w' :
  fetch_recent_news env hours limit w = (Raise e, w') ->
  e = OverflowError /\
  (sub_hours (clock env (tick w)) hours = None \/
   exists t, sub_hours (clock env t) 24 = None).
Proof.
  rewrite fetch_recent_news_unfold.
  destruct (sub_hours (clock env (tick w)) hours) as [c|];
    [|intros H; inversion H; auto].
  destruct (feeds_loop_run env c (feeds (this w)) [] (loop_start w))
    as (cands & n & rs & Hloop & Hcands).
  simpl in Hloop. rewrite (bind_run _ _ _ _ _ Hloop).
  destruct (sort_by_published_run c cands (logged (advance n (loop_start w)) rs) Hcands)
    as (sorted & Hsort & _).
  rewrite (bind_run _ _ _ _ _ Hsort). unfold after_sort.
  set (w1 := logged (advance n (loop_start w)) rs).
  assert (Hrest : forall fresh w2,
             exists res w3,
               bind (id_loop 0 (slice_to limit fresh))
                    (fun all => bind (logger (Info_fetched (length all)))
                                     (fun _ => ret all)) w2 = (Ok res, w3)).
  { intros fresh w2.
    destruct (id_loop_run (slice_to limit fresh) 0 w2) as (c' & Hrun & _).
    rewrite (bind_run _ _ _ _ _ Hrun). eexists _, _. reflexivity. }
  destruct (STRICT_24H_FILTER env) eqn:Hs.
  - destruct (sub_hours (clock env (tick w1)) 24) as [cutoff|] eqn:Hc.
    + destruct (filter_stale_articles_enabled env sorted 24 w1 cutoff Hs Hc)
        as [rs' Hf].
      rewrite (bind_run _ _ _ _ _ Hf).
      match goal with |- bind _ _ ?w2 = _ -> _ =>
        destruct (Hrest (List.filter (passes cutoff) sorted) w2) as (res & w3 & ->)
      end.
      discriminate.
    + rewrite (bind_raise _ _ _ _ _ (filter_stale_articles_overflow env sorted 24 w1 Hs Hc)).
      intros H. inversion H. split; [reflexivity|]. right. eauto.
  - rewrite (bind_run _ _ _ _ _ (filter_stale_articles_disabled env sorted 24 w1 Hs)).
    match goal with |- bind _ _ ?w2 = _ -> _ =>
      destruct (Hrest sorted w2) as (res & w3 & ->)
    end.
    discriminate.
Qed.

Lemma In_firstn {A} (n : nat) (l : list A) (x : A) : In x (firstn n l) -> In x l.
Proof.
  revert l. induction n as [|n IH]; intros [|y l] H; simpl in *; try contradiction.
  destruct H as [->|H]; [left; reflexivity | right; apply IH, H].
Qed.

Lemma In_slice_to {A} (k : Z) (l : list A) (x : A) : In x (slice_to k l) -> In x l.
Proof. unfold slice_to. destruct (0 <=? k); apply In_firstn. Qed.

Lemma In_number_from l :
  forall i a, In a (number_from i l) ->
              exists a0 j, In a0 l /\ a = set_id a0 j.
Proof.
  induction l as [|x l IH]; intros i a H; simpl in H; [contradiction|].
  destruct H as [<-|H].
  - exists x, i. split; [left|]; reflexivity.
  - destruct (IH _ _ H) as (a0 & j & Hin & ->).
    exists a0, j. split; [right; exact Hin | reflexivity].
Qed.

Lemma passes_not_old cutoff a p :
  passes cutoff a = true -> published a = Some p -> cutoff <= p.
Proof.
  unfold passes, is_old. intros H Hp. rewrite Hp in H.
  destruct (Z.ltb_spec p cutoff); [discriminate H | assumption].
Qed.

(** ** The claims *)

(** C1. With the switch enabled, whatever [hours] and [limit] are, every
    article [fetch_recent_news] returns is dated, and dated no earlier than
    24 hours before the moment the filter read the clock during the call. *)
Theorem fetch_recent_news_within_24h env hours limit w res w' :
  STRICT_24H_FILTER env = true ->
  fetch_recent_news env hours limit w = (Ok res, w') ->
  exists t : nat,
    (tick w < t < tick w')%nat /\
    forall a, In a res ->
      exists p, published a = Some p /\ clock env t - 24 * US_PER_HOUR <= p.
Proof.
  intros Hs H. apply fetch_recent_news_inv in H.
  destruct H as (c & cands & n & rs & sorted & _ & _ & Hc & Hperm & _ & _ &
                 Hres & Htick & _).
  rewrite Hs in Htick. exists (n + S (tick w))%nat. split; [lia|].
  intros a Ha. subst res. apply In_number_from in Ha.
  destruct Ha as (a0 & j & Hin & ->). apply In_slice_to in Hin.
  unfold kept in Hin. rewrite Hs in Hin. apply filter_In in Hin.
  destruct Hin as [Hin Hp].
  assert (Hc0 : candidate c a0).
  { rewrite Forall_forall in Hc. apply Hc. rewrite <- Hperm.
    apply list_elem_of_In. exact Hin. }
  destruct Hc0 as [_ (p & Hpub & _)]. exists p. split; [exact Hpub|].
  eapply passes_not_old; eassumption.
Qed.

Lemma fetch_recent_news_within_24h_witness :
  exists t : nat,
    (0 < t < 3)%nat /\
    forall a, In a Scenario.result ->
      exists p, published a = Some p /\
                clock Scenario.frozen t - 24 * US_PER_HOUR <= p.
Proof.
  apply (fetch_recent_news_within_24h Scenario.frozen 48 50 Scenario.start
           Scenario.result
           (snd (fetch_recent_news Scenario.frozen 48 50 Scenario.start))).
  - reflexivity.
  - vm_compute. reflexivity.
Defined.

(** *** Order facts for C2 *)

Lemma sublist_filter_bool {A} (f : A -> bool) (l1 l2 : list A) :
  sublist l1 l2 -> sublist (List.filter f l1) (List.filter f l2).
Proof.
  induction 1 as [|x l1 l2 _ IH|x l1 l2 _ IH]; simpl.
  - constructor.
  - destruct (f x); [constructor|]; exact IH.
  - destruct (f x); [constructor|]; exact IH.
Qed.

Lemma filter_bool_sublist {A} (f : A -> bool) (l : list A) :
  sublist (List.filter f l) l.
Proof.
  induction l as [|x l IH]; simpl; [constructor|].
  destruct (f x); constructor; exact IH.
Qed.

Lemma slice_to_sublist {A} (k : Z) (l : list A) : sublist (slice_to k l) l.
Proof. unfold slice_to. destruct (0 <=? k); apply sublist_take. Qed.

Lemma kept_sublist env now sorted : sublist (kept env now sorted) sorted.
Proof.
  unfold kept. destruct (STRICT_24H_FILTER env);
    [apply filter_bool_sublist | reflexivity].
Qed.

Lemma Forall_sublist {A} (P : A -> Prop) (l1 l2 : list A) :
  sublist l1 l2 -> Forall P l2 -> Forall P l1.
Proof.
  induction 1 as [|x l1 l2 _ IH|x l1 l2 _ IH]; intros H.
  - constructor.
  - inversion H; subst. constructor; auto.
  - inversion H; subst. auto.
Qed.

Lemma StronglySorted_sublist {A} (R : A -> A -> Prop) (l1 l2 : list A) :
  sublist l1 l2 -> StronglySorted R l2 -> StronglySorted R l1.
Proof.
  induction 1 as [|x l1 l2 Hsub IH|x l1 l2 _ IH]; intros H.
  - constructor.
  - inversion H; subst. constructor; [auto|].
    eapply Forall_sublist; eassumption.
  - inversion H; subst. auto.
Qed.

Lemma StronglySorted_lookup {A} (R : A -> A -> Prop) (l : list A) :
  StronglySorted R l ->
  forall (i j : nat) a b,
    (i < j)%nat -> l !! i = Some a -> l !! j = Some b -> R a b.
Proof.
  induction 1 as [|x l _ IH Hall]; intros i j a b Hij Ha Hb.
  - destruct i; discriminate Ha.
  - destruct j as [|j]; [lia|]. simpl in Hb. destruct i as [|i]; simpl in Ha.
    + inversion Ha; subst. rewrite Forall_forall in Hall. apply Hall.
      eapply list_elem_of_lookup_2. exact Hb.
    + eapply IH; [|exact Ha|exact Hb]. lia.
Qed.

Lemma number_from_not_older l :
  forall i, StronglySorted not_older l ->
            StronglySorted not_older (number_from i l).
Proof.
  induction l as [|a l IH]; intros i H; simpl; [constructor|].
  inversion H as [|? ? Hs Hall]; subst. constructor; [apply IH, Hs|].
  rewrite Forall_forall in *. intros b Hb.
  apply list_elem_of_In, In_number_from in Hb.
  destruct Hb as (b0 & j & Hb0 & ->).
  apply list_elem_of_In, Hall in Hb0. exact Hb0.
Qed.

Lemma fetch_recent_news_id_at env hours limit w res w' :
  fetch_recent_news env hours limit w = (Ok res, w') ->
  forall (i : nat) a, res !! i = Some a -> id a = Some (Z.of_nat i).
Proof.
  intros H. apply fetch_recent_news_inv in H.
  destruct H as (c & cands & n & rs & sorted & _ & _ & _ & _ & _ & _ & Hres & _).
  intros i a Ha. subst res. rewrite number_from_lookup in Ha.
  destruct (_ !! i); inversion Ha. reflexivity.
Qed.

(** C2. The list returned carries the ids 0, 1, ... in list order; it is
    newest first; and articles with the same date come in the order in
    which the loop over the feeds collected them (the sort is stable, the
    filter and the limit only drop articles). *)
Theorem fetch_recent_news_ids_and_order env hours limit w res w' :
  fetch_recent_news env hours limit w = (Ok res, w') ->
  (forall (i : nat) a, res !! i = Some a -> id a = Some (Z.of_nat i)) /\
  (forall (i j : nat) a b,
      (i < j)%nat -> res !! i = Some a -> res !! j = Some b ->
      not_older a b) /\
  exists cutoff_time cands w1,
    sub_hours (clock env (tick w)) hours = Some cutoff_time /\
    feeds_loop env cutoff_time (feeds (this w)) [] (loop_start w) =
      (Ok cands, w1) /\
    forall k,
      sublist (List.filter (published_at k) (map without_id res))
              (List.filter (published_at k) cands).
Proof.
  intros H. assert (Hid := fetch_recent_news_id_at _ _ _ _ _ _ H).
  apply fetch_recent_news_inv in H.
  destruct H as (c & cands & n & rs & sorted & Hsub & Hloop & Hc & Hperm &
                 Hss & Hst & Hres & _).
  set (now24 := clock env (n + S (tick w))) in *.
  assert (Hk : sublist (slice_to limit (kept env now24 sorted)) sorted).
  { etransitivity; [apply slice_to_sublist | apply kept_sublist]. }
  split; [|split].
  - clear Hres. exact Hid.
  - subst res. apply StronglySorted_lookup, number_from_not_older.
    eapply StronglySorted_sublist; eassumption.
  - exists c, cands, (logged (advance n (loop_start w)) rs).
    split; [exact Hsub|]. split; [exact Hloop|]. intros k.
    subst res. rewrite without_id_number_from.
    + rewrite <- Hst. apply sublist_filter_bool, Hk.
    + eapply Forall_sublist; [exact Hk|].
      rewrite Forall_forall in *. intros a Ha.
      rewrite Hperm in Ha. destruct (Hc a Ha) as [Hnone _]. exact Hnone.
Qed.


Lemma fetch_recent_news_ids_and_order_witness :
  (forall (i : nat) a, Scenario.result !! i = Some a -> id a = Some (Z.of_nat i)) /\
  (forall (i j : nat) a b,
      (i < j)%nat -> Scenario.result !! i = Some a ->
      Scenario.result !! j = Some b -> not_older a b) /\
  exists cutoff_time cands w1,
    sub_hours (clock Scenario.frozen (tick Scenario.start)) 48 = Some cutoff_time /\
    feeds_loop Scenario.frozen cutoff_time (feeds (this Scenario.start)) []
               (loop_start Scenario.start) = (Ok cands, w1) /\
    forall k,
      sublist (List.filter (published_at k) (map without_id Scenario.result))
              (List.filter (published_at k) cands).
Proof.
  apply (fetch_recent_news_ids_and_order Scenario.frozen 48 50 Scenario.start
           Scenario.result
           (snd (fetch_recent_news Scenario.frozen 48 50 Scenario.start))).
  vm_compute. reflexivity.
Defined.

(** *** The cache *)

Lemma get_articles_by_ids_run (f : Z -> option Article) ids :
  forall w,
    (forall k, _articles_cache (this w) !! k = f k) ->
    get_articles_by_ids ids w =
    (Ok (omap f ids),
     logged w (map Warning_id_not_found
                   (List.filter (fun i => match f i with Some _ => false | None => true end)
                                ids))).
Proof.
  induction ids as [|i ids IH]; intros w Hw.
  - simpl. unfold ret. rewrite logged_nil. reflexivity.
  - cbn [get_articles_by_ids]. unfold bind at 1, get_this. rewrite Hw.
    cbn [omap list_omap List.filter].
    destruct (f i) as [a|] eqn:Hfi.
    + unfold bind at 1. rewrite (IH w Hw). reflexivity.
    + unfold bind at 1. rewrite logger_run.
      rewrite (IH (logged w [Warning_id_not_found i]) Hw).
      rewrite logged_logged. reflexivity.
Qed.

(** C4. After a fetch the cache holds exactly the records of the list just
    returned, each under its id, whatever it held before.
    [get_articles_by_ids] then returns, in the order asked, the record of
    every id of that list and skips every other id with a warning; it never
    raises. *)
Theorem get_articles_by_ids_after_fetch env hours limit w res w' ids :
  fetch_recent_news env hours limit w = (Ok res, w') ->
  (forall k : Z, _articles_cache (this w') !! k = at_id res k) /\
  (forall (k : Z) a, at_id res k = Some a -> id a = Some k) /\
  get_articles_by_ids ids w' =
  (Ok (omap (at_id res) ids),
   logged w' (map Warning_id_not_found (List.filter (missing res) ids))).
Proof.
  intros H.
  assert (Hid := fetch_recent_news_id_at _ _ _ _ _ _ H).
  apply fetch_recent_news_inv in H.
  destruct H as (c & cands & n & rs & sorted & _ & _ & _ & _ & _ & _ & _ & _ &
                 _ & Hcache).
  split; [exact Hcache|]. split.
  - intros k a. unfold at_id. destruct (Z.leb_spec 0 k); [|discriminate].
    intros Ha. rewrite (Hid _ _ Ha). f_equal. lia.
  - apply (get_articles_by_ids_run (at_id res) ids w' Hcache).
Qed.

Lemma get_articles_by_ids_after_fetch_witness :
  (forall k : Z,
      _articles_cache (this Scenario.after_fetch) !! k = at_id Scenario.result k) /\
  (forall (k : Z) a, at_id Scenario.result k = Some a -> id a = Some k) /\
  get_articles_by_ids [1; 7; 0; -1] Scenario.after_fetch =
  (Ok (omap (at_id Scenario.result) [1; 7; 0; -1]),
   logged Scenario.after_fetch
          (map Warning_id_not_found
               (List.filter (missing Scenario.result) [1; 7; 0; -1]))).
Proof.
  apply (get_articles_by_ids_after_fetch Scenario.frozen 48 50 Scenario.start).
  vm_compute. reflexivity.
Defined.

(** *** The scenario *)

Lemma in_range_true d : MIN <= d <= MAX -> in_range d = true.
Proof. unfold in_range. intros [H1 H2]. apply andb_true_intro. split; apply Z.leb_le; assumption. Qed.

Ltac numerals :=
  unfold Scenario.noon, MIN, MAX, encode, US_PER_HOUR, US_PER_SECOND in *.

Lemma Permutation_filter_bool {A} (f : A -> bool) (l1 l2 : list A) :
  Permutation l1 l2 -> Permutation (List.filter f l1) (List.filter f l2).
Proof.
  induction 1 as [|x l1 l2 _ IH|x y l|l1 l2 l3 _ IH1 _ IH2]; cbn [List.filter].
  - constructor.
  - destruct (f x); [constructor|]; exact IH.
  - destruct (f x), (f y); try reflexivity. constructor.
  - etransitivity; eassumption.
Qed.

(** Entries that all carry a date after the cutoff and a summary that is
    text are all appended, in the order of the feed. *)
Lemma entries_loop_all_recent env c url feed es :
  Forall (fun e => exists d, parsed_date e = Some d /\ c < d /\
                             summary_error e = None) es ->
  forall acc w,
    entries_loop env c url feed es acc w =
    (Ok (acc ++ map (fun e => make_article url feed e (stamp env e w)) es, None),
     w).
Proof.
  induction 1 as [|e es (d & Hd & Hc & Hs) _ IH]; intros acc w.
  - cbn [entries_loop map]. rewrite app_nil_r. reflexivity.
  - assert (Hst : stamp env e w = d) by (unfold stamp; rewrite Hd; reflexivity).
    assert (Hw : stamped e w = w) by (unfold stamped; rewrite Hd; reflexivity).
    rewrite entries_loop_cons, Hst, Hw, Hs.
    replace (c <? d) with true by (symmetry; apply Z.ltb_lt, Hc).
    rewrite IH. cbn [map]. rewrite Hst, <- app_assoc. reflexivity.
Qed.

(** C3. The scenario: entries dated now, an hour ago (clean), 25 hours ago,
    and an hour ago with "in 2023" in the summary, listed by the feed in any
    order; the switch enabled; [hours = 48].  Whenever the call happens
    within the hour, it returns the first two, the one dated now before the
    one an hour old, with ids 0 and 1. *)
Theorem scenario_48_hours clk es :
  (forall t, Scenario.noon <= clk t < Scenario.noon + US_PER_HOUR) ->
  Permutation es Scenario.four ->
  fst (fetch_recent_news (Scenario.env_of clk es) 48 50 Scenario.start) =
  Ok Scenario.result.
Proof.
  intros Hclk Hperm.
  assert (Hsub : forall t h, 0 <= h <= 48 ->
            sub_hours (clk t) h = Some (clk t - h * US_PER_HOUR)).
  { intros t h Hh. unfold sub_hours. specialize (Hclk t).
    rewrite in_range_true; [reflexivity|]. numerals. lia. }
  destruct (fetch_recent_news (Scenario.env_of clk es) 48 50 Scenario.start)
    as [[res|e] w'] eqn:Hrun.
  2: { apply fetch_recent_news_raises in Hrun.
       cbn [clock Scenario.env_of env_at_import] in Hrun.
       destruct Hrun as [_ [H|[t H]]]; rewrite Hsub in H by lia; discriminate H. }
  cbn [fst]. f_equal. apply fetch_recent_news_inv in Hrun.
  destruct Hrun as (c & cands & n & rs & sorted & Hc & Hloop & _ & Hps & Hss &
                    _ & Hres & _).
  cbn [clock Scenario.env_of env_at_import tick Scenario.start] in Hc, Hres.
  rewrite Hsub in Hc by lia. inversion Hc; subst c. clear Hc.
  assert (H0 := Hclk 0%nat).
  (* what the loop collects *)
  set (dated := fun e : Entry =>
                  make_article Scenario.url (Scenario.feed_of es) e
                               (default 0 (parsed_date e))).
  assert (Hcands : cands = map dated es).
  { assert (Hall : Forall (fun e => exists d, parsed_date e = Some d /\
                              clk 0%nat - 48 * US_PER_HOUR < d /\
                              summary_error e = None) es).
    { eapply Permutation_Forall; [symmetry; exact Hperm|].
      unfold Scenario.four.
      constructor; [exists Scenario.noon|constructor;
        [exists (Scenario.noon - US_PER_HOUR)|constructor;
        [exists (Scenario.noon - 25 * US_PER_HOUR)|constructor;
        [exists (Scenario.noon - US_PER_HOUR)|constructor]]]];
        (split; [reflexivity|]; split; [numerals; lia | reflexivity]). }
    cbn [feeds this Scenario.start __init__] in Hloop.
    rewrite feeds_loop_cons in Hloop.
    cbn [parse_oracle Scenario.env_of env_at_import entries Scenario.feed_of]
      in Hloop.
    rewrite (bind_run _ _ _ _ _
               (entries_loop_all_recent _ _ _ _ es Hall [] _)) in Hloop.
    cbn [fst snd error_line feeds_loop app] in Hloop. unfold ret in Hloop.
    inversion Hloop as [[Hl Ht]]. apply map_ext_in. intros e He.
    rewrite Forall_forall in Hall. apply list_elem_of_In, Hall in He.
    destruct He as (d & Hd & _). unfold dated, stamp. rewrite Hd. reflexivity. }
  (* what the filter keeps of it *)
  set (cutoff := clk (n + 1)%nat - 24 * US_PER_HOUR) in Hres.
  assert (H1 := Hclk (n + 1)%nat).
  assert (Hkept : Permutation
            [dated Scenario.entry_now; dated Scenario.entry_1h]
            (List.filter (passes cutoff) sorted)).
  { symmetry. etransitivity; [apply Permutation_filter_bool, Hps|].
    rewrite Hcands.
    etransitivity;
      [apply Permutation_filter_bool, Permutation_map, Hperm|].
    cbn [map Scenario.four List.filter]. unfold passes, is_old.
    change (published (dated Scenario.entry_now)) with (Some Scenario.noon).
    change (published (dated Scenario.entry_1h))
      with (Some (Scenario.noon - US_PER_HOUR)).
    change (published (dated Scenario.entry_25h))
      with (Some (Scenario.noon - 25 * US_PER_HOUR)).
    change (published (dated Scenario.entry_2023))
      with (Some (Scenario.noon - US_PER_HOUR)).
    change (has_stale_year (dated Scenario.entry_now)) with false.
    change (has_stale_year (dated Scenario.entry_1h)) with false.
    change (has_stale_year (dated Scenario.entry_2023)) with true.
    cbv beta iota.
    replace (Scenario.noon <? cutoff) with false
      by (symmetry; apply Z.ltb_ge; subst cutoff; numerals; lia).
    replace (Scenario.noon - US_PER_HOUR <? cutoff) with false
      by (symmetry; apply Z.ltb_ge; subst cutoff; numerals; lia).
    replace (Scenario.noon - 25 * US_PER_HOUR <? cutoff) with true
      by (symmetry; apply Z.ltb_lt; subst cutoff; numerals; lia).
    cbn [negb andb]. reflexivity. }
  (* the sort decides the order *)
  assert (Hsorted : StronglySorted not_older (List.filter (passes cutoff) sorted)).
  { eapply StronglySorted_sublist; [apply filter_bool_sublist | exact Hss]. }
  unfold kept in Hres.
  cbn [STRICT_24H_FILTER Scenario.env_of env_at_import] in Hres.
  change STRICT_24H_FILTER_at_import with true in Hres. cbv iota in Hres.
  fold cutoff in Hres.
  apply Permutation_length_2_inv in Hkept. destruct Hkept as [Hk|Hk];
    rewrite Hk in Hres, Hsorted.
  - subst res. reflexivity.
  - exfalso. inversion Hsorted as [|? ? _ Hall]; subst.
    inversion Hall as [|? ? (p & q & Hp & Hq & Hle) _]; subst.
    change (published (dated Scenario.entry_1h))
      with (Some (Scenario.noon - US_PER_HOUR)) in Hp.
    change (published (dated Scenario.entry_now))
      with (Some Scenario.noon) in Hq.
    inversion Hp; inversion Hq; subst p q. numerals. lia.
Qed.

Lemma scenario_48_hours_witness :
  Permutation
    [Scenario.entry_2023; Scenario.entry_25h; Scenario.entry_1h;
     Scenario.entry_now] Scenario.four /\
  fst (fetch_recent_news
         (Scenario.env_of (fun _ => Scenario.noon)
            [Scenario.entry_2023; Scenario.entry_25h; Scenario.entry_1h;
             Scenario.entry_now])
         48 50 Scenario.start) = Ok Scenario.result.
Proof.
  assert (H : Permutation
                [Scenario.entry_2023; Scenario.entry_25h; Scenario.entry_1h;
                 Scenario.entry_now] Scenario.four).
  { change Scenario.four
      with (rev [Scenario.entry_2023; Scenario.entry_25h; Scenario.entry_1h;
                 Scenario.entry_now]).
    apply Permutation_rev. }
  split; [exact H|].
  apply (scenario_48_hours (fun _ => Scenario.noon) _).
  - intros _. vm_compute. split; [discriminate | reflexivity].
  - exact H.
Defined.

(** *** The switch *)

(** C8. The switch is [True] when the module is loaded.  With the switch
    off, [filter_stale_articles] returns its argument as it is, whatever the
    ages and texts, and logs the warning that stale news may leak. *)
Theorem filter_stale_articles_switch_off env articles max_age_hours w :
  STRICT_24H_FILTER env = false ->
  STRICT_24H_FILTER_at_import = true /\
  (forall clk p, STRICT_24H_FILTER (env_at_import clk p) = true) /\
  filter_stale_articles env articles max_age_hours w =
  (Ok articles, logged w [Warning_filter_disabled]).
Proof.
  intros Hs. split; [reflexivity|]. split; [reflexivity|].
  apply filter_stale_articles_disabled, Hs.
Qed.

Lemma filter_stale_articles_switch_off_witness :
  STRICT_24H_FILTER_at_import = true /\
  (forall clk p, STRICT_24H_FILTER (env_at_import clk p) = true) /\
  filter_stale_articles Scenario.disabled
    [mkArticle "Old news" "" "Feed" (Some 0) "back in 2023" None] 24
    Scenario.start =
  (Ok [mkArticle "Old news" "" "Feed" (Some 0) "back in 2023" None],
   logged Scenario.start [Warning_filter_disabled]).
Proof.
  apply (filter_stale_articles_switch_off Scenario.disabled). reflexivity.
Defined.

(** *** No feeds *)

(** C6 as stated fails three ways: an explicit empty list makes the
    constructor fall back on [RSS_FEEDS], whose articles are then fetched;
    with the switch off no zero-fresh warning is logged; and an [hours] whose
    cutoff is no datetime raises [OverflowError]. *)
Lemma no_feeds_counterexample :
  fst (fetch_recent_news Scenario.frozen 48 50 Scenario.start_explicit_empty)
    = Ok Scenario.result /\
  log (snd (fetch_recent_news Scenario.disabled 8 50 Scenario.start_no_feeds))
    = [Warning_filter_disabled; Info_fetched 0] /\
  fst (fetch_recent_news Scenario.frozen 100000000 50 Scenario.start_no_feeds)
    = Raise OverflowError.
Proof. vm_compute. repeat split; reflexivity. Qed.

Lemma slice_to_nil {A} (k : Z) : slice_to k (@nil A) = [].
Proof. unfold slice_to. destruct (0 <=? k); apply firstn_nil. Qed.

(** C6, amended.  The constructor treats an explicit empty list like no
    list at all.  When [self.feeds] is empty and the two cutoffs are
    datetimes, [fetch_recent_news] returns the empty list and empties the
    cache; with the switch on it logs the zero-fresh-articles warning, with
    the switch off the warning that the filter is disabled. *)
Theorem fetch_recent_news_no_feeds env hours limit w cutoff_time cutoff :
  feeds (this w) = [] ->
  sub_hours (clock env (tick w)) hours = Some cutoff_time ->
  sub_hours (clock env (S (tick w))) 24 = Some cutoff ->
  (forall RSS_FEEDS, __init__ RSS_FEEDS (Some []) = __init__ RSS_FEEDS None) /\
  fetch_recent_news env hours limit w =
  (Ok [],
   mkWorld (if STRICT_24H_FILTER env then S (S (tick w)) else S (tick w))
           (log w ++
            (if STRICT_24H_FILTER env
             then [Info_stale_filter 0 0 cutoff; Warning_all_filtered_out]
             else [Warning_filter_disabled]) ++ [Info_fetched 0])
           (mkNewsFetcher [] ∅)).
Proof.
  intros Hf Hc Hc24. split; [reflexivity|].
  rewrite fetch_recent_news_unfold, Hc, Hf.
  cbn [feeds_loop]. unfold bind at 1. unfold ret at 1.
  unfold bind at 1. unfold sort_by_published. cbn [published_keys map sort_desc].
  unfold ret at 1. unfold after_sort, filter_stale_articles.
  destruct (STRICT_24H_FILTER env); cbn [negb].
  - unfold bind at 1. unfold bind at 1. unfold datetime_now.
    cbn [tick loop_start]. unfold bind at 1, minus_hours. rewrite Hc24.
    unfold ret at 1. unfold bind at 1. cbn [filter_loop]. unfold ret at 1.
    cbn [fst snd length Nat.eqb]. unfold bind, logger, ret.
    rewrite slice_to_nil. cbn [id_loop tick log this feeds length].
    unfold ret, loop_start. cbn [tick log this feeds]. rewrite Hf.
    rewrite <- !app_assoc. reflexivity.
  - unfold bind, logger, ret. rewrite slice_to_nil.
    cbn [id_loop tick log this feeds length loop_start].
    unfold ret. cbn [tick log this feeds length]. rewrite Hf.
    rewrite <- !app_assoc. reflexivity.
Qed.

Lemma fetch_recent_news_no_feeds_witness :
  (forall RSS_FEEDS, __init__ RSS_FEEDS (Some []) = __init__ RSS_FEEDS None) /\
  fetch_recent_news Scenario.frozen 8 50 Scenario.start_no_feeds =
  (Ok [],
   mkWorld 2
           ([] ++ [Info_stale_filter 0 0 (Scenario.noon - 24 * US_PER_HOUR);
                   Warning_all_filtered_out] ++ [Info_fetched 0])
           (mkNewsFetcher [] ∅)).
Proof.
  apply (fetch_recent_news_no_feeds Scenario.frozen 8 50 Scenario.start_no_feeds
           (Scenario.noon - 8 * US_PER_HOUR) (Scenario.noon - 24 * US_PER_HOUR));
    reflexivity.
Defined.

(** *** The stale-year patterns *)

Lemma append_nil_l (s : string) : EmptyString +:+ s = s.
Proof. reflexivity. Qed.

Lemma append_cons (c : ascii) (a b : string) :
  String c a +:+ b = String c (a +:+ b).
Proof. reflexivity. Qed.

Lemma append_nil_inv (a b : string) :
  a +:+ b = EmptyString -> a = EmptyString /\ b = EmptyString.
Proof.
  destruct a; [rewrite append_nil_l | rewrite append_cons]; intros H;
    [auto | discriminate H].
Qed.

(** A run of literals matches exactly when the text starts with them. *)
Lemma match_here_literals (lit : string) :
  forall q prev s,
    Re.match_here (map Re.Literal (list_ascii_of_string lit) ++ q) prev s = true <->
    exists post, s = lit +:+ post /\ Re.match_here q (last_char prev lit) post = true.
Proof.
  induction lit as [|c lit IH]; intros q prev s.
  - cbn [list_ascii_of_string map app last_char]. split.
    + intros H. exists s. auto.
    + intros (post & -> & H). exact H.
  - cbn [list_ascii_of_string map app Re.match_here last_char]. split.
    + destruct s as [|x s]; [discriminate|].
      intros H. apply andb_true_iff in H. destruct H as [Hx H].
      apply Ascii.eqb_eq in Hx. subst x.
      apply IH in H. destruct H as (post & -> & H).
      exists post. split; [reflexivity | exact H].
    + intros (post & -> & H). rewrite append_cons.
      rewrite Ascii.eqb_refl. cbn [andb]. apply IH. exists post. auto.
Qed.

Lemma search_from_iff p :
  forall s prev,
    Re.search_from p prev s = true <->
    exists pre post, s = pre +:+ post /\ Re.match_here p (last_char prev pre) post = true.
Proof.
  induction s as [|x s IH]; intros prev; cbn [Re.search_from].
  - rewrite orb_false_r. split.
    + intros H. exists EmptyString, EmptyString. auto.
    + intros (pre & post & Heq & H). symmetry in Heq.
      apply append_nil_inv in Heq. destruct Heq as [-> ->]. exact H.
  - rewrite orb_true_iff, IH. split.
    + intros [H | (pre & post & -> & H)].
      * exists EmptyString, (String x s). auto.
      * exists (String x pre), post. auto.
    + intros (pre & post & Heq & H). destruct pre as [|y pre].
      * left. rewrite append_nil_l in Heq. subst post. exact H.
      * right. rewrite append_cons in Heq. inversion Heq; subst.
        exists pre, post. auto.
Qed.

(** [\bLIT\b] matches at a position exactly when [LIT] stands there with
    no word character on either side, for a [LIT] that starts and ends with
    word characters. *)
Lemma match_here_word_bounded lit prev s :
  Re.is_word_opt (Re.head_char lit) = true ->
  Re.is_word_opt (last_char None lit) = true ->
  Re.match_here (Re.word_bounded lit) prev s = true <->
  exists post, s = lit +:+ post /\
               Re.is_word_opt prev = false /\
               Re.is_word_opt (Re.head_char post) = false.
Proof.
  intros Hh Hl. unfold Re.word_bounded. cbn [Re.match_here].
  rewrite andb_true_iff, match_here_literals.
  destruct lit as [|c lit]; [discriminate Hh|].
  cbn [last_char] in *.
  split.
  - intros (Hb & post & -> & He). exists post. split; [reflexivity|].
    cbn [Re.match_here] in He. rewrite andb_true_r in He.
    unfold Re.at_boundary in *. rewrite Hl in He.
    rewrite append_cons in Hb. cbn [Re.head_char] in Hb, Hh.
    rewrite Hh in Hb.
    destruct (Re.is_word_opt prev); [discriminate Hb|].
    destruct (Re.is_word_opt (Re.head_char post)); [discriminate He|]. auto.
  - intros (post & -> & Hp & Hn). split.
    + unfold Re.at_boundary. rewrite append_cons. cbn [Re.head_char] in *.
      rewrite Hp, Hh. reflexivity.
    + exists post. split; [reflexivity|]. cbn [Re.match_here].
      unfold Re.at_boundary. rewrite Hl, Hn. reflexivity.
Qed.

Lemma search_word_bounded lit text :
  Re.is_word_opt (Re.head_char lit) = true ->
  Re.is_word_opt (last_char None lit) = true ->
  Re.search (Re.word_bounded lit) text = true <-> whole_word_in lit text.
Proof.
  intros Hh Hl. unfold Re.search, whole_word_in. rewrite search_from_iff.
  split.
  - intros (pre & post0 & -> & H).
    apply (match_here_word_bounded lit _ _ Hh Hl) in H.
    destruct H as (post & -> & Hp & Hn). exists pre, post. auto.
  - intros (pre & post & -> & Hp & Hn). exists pre, (lit +:+ post).
    split; [reflexivity|]. apply (match_here_word_bounded lit _ _ Hh Hl).
    exists post. auto.
Qed.

Lemma has_stale_year_iff a :
  has_stale_year a = true <->
  exists year, In year ["2024"; "2023"; "2022"]%string /\
               whole_word_in year (text_to_check a).
Proof.
  unfold has_stale_year, stale_year_scan, STALE_YEAR_PATTERNS.
  cbn [List.find].
  assert (H4 := search_word_bounded "2024" (text_to_check a) eq_refl eq_refl).
  assert (H3 := search_word_bounded "2023" (text_to_check a) eq_refl eq_refl).
  assert (H2 := search_word_bounded "2022" (text_to_check a) eq_refl eq_refl).
  destruct (Re.search (Re.word_bounded "2024") (text_to_check a)).
  { split; [|reflexivity]. intros _. exists "2024"%string.
    split; [simpl; auto | apply H4; reflexivity]. }
  destruct (Re.search (Re.word_bounded "2023") (text_to_check a)).
  { split; [|reflexivity]. intros _. exists "2023"%string.
    split; [simpl; auto | apply H3; reflexivity]. }
  destruct (Re.search (Re.word_bounded "2022") (text_to_check a)).
  { split; [|reflexivity]. intros _. exists "2022"%string.
    split; [simpl; auto | apply H2; reflexivity]. }
  split; [discriminate|].
  intros (year & Hin & Hw). simpl in Hin.
  destruct Hin as [<-|[<-|[<-|[]]]].
  - apply H4 in Hw. discriminate Hw.
  - apply H3 in Hw. discriminate Hw.
  - apply H2 in Hw. discriminate Hw.
Qed.

Lemma rejection_None now cutoff a :
  rejection now cutoff a = None <-> passes cutoff a = true.
Proof.
  unfold rejection, passes, is_old, has_stale_year, too_old.
  destruct (published a) as [d|].
  - destruct (d <? cutoff); [split; discriminate|].
    destruct (stale_year_scan _ _); split; (discriminate || reflexivity).
  - destruct (stale_year_scan _ _); split; (discriminate || reflexivity).
Qed.

Lemma filter_loop_log now cutoff articles :
  forall fresh rejected w,
    filter_loop now cutoff articles fresh rejected w =
    (Ok (fresh ++ List.filter (passes cutoff) articles,
         (rejected + length (omap (rejection now cutoff) articles))%nat),
     logged w (omap (rejection now cutoff) articles)).
Proof.
  induction articles as [|a rest IH]; intros fresh rejected w.
  - cbn [filter_loop List.filter omap list_omap length]. unfold ret.
    rewrite logged_nil, app_nil_r, Nat.add_0_r. reflexivity.
  - cbn [filter_loop List.filter omap list_omap].
    assert (Hn := rejection_None now cutoff a). unfold rejection in *.
    destruct (too_old (published a) now cutoff) as [age|].
    + destruct (passes cutoff a); [destruct Hn as [_ Hn]; discriminate (Hn eq_refl)|].
      unfold bind. rewrite logger_run, IH, logged_logged.
      cbn [length app]. rewrite Nat.add_succ_r. reflexivity.
    + destruct (stale_year_scan STALE_YEAR_PATTERNS (text_to_check a)) as [pat|].
      * destruct (passes cutoff a); [destruct Hn as [_ Hn]; discriminate (Hn eq_refl)|].
        unfold bind. rewrite logger_run, IH, logged_logged.
        cbn [length app]. rewrite Nat.add_succ_r. reflexivity.
      * destruct (passes cutoff a); [|destruct Hn as [Hn _]; discriminate (Hn eq_refl)].
        rewrite IH, <- app_assoc. reflexivity.
Qed.

Lemma filter_stale_articles_exact env articles h w cutoff :
  STRICT_24H_FILTER env = true ->
  sub_hours (clock env (tick w)) h = Some cutoff ->
  filter_stale_articles env articles h w =
  (Ok (List.filter (passes cutoff) articles),
   logged (advance 1 w)
     (omap (rejection (clock env (tick w)) cutoff) articles ++
      Info_stale_filter (length (List.filter (passes cutoff) articles))
        (length (omap (rejection (clock env (tick w)) cutoff) articles)) cutoff
      :: (if Nat.eqb (length (List.filter (passes cutoff) articles)) 0
          then [Warning_all_filtered_out] else []))).
Proof.
  intros Hs Hc. unfold filter_stale_articles. rewrite Hs. cbn [negb].
  unfold bind at 1. unfold datetime_now.
  unfold bind at 1. unfold minus_hours. rewrite Hc. unfold ret at 1.
  unfold bind at 1. rewrite filter_loop_log. cbn [fst snd app Nat.add].
  unfold bind at 1. rewrite logger_run, logged_logged.
  unfold bind at 1.
  destruct (Nat.eqb (length (List.filter (passes cutoff) articles)) 0).
  - rewrite logger_run, logged_logged. unfold ret. rewrite <- app_assoc.
    reflexivity.
  - unfold ret. reflexivity.
Qed.

Lemma rejected_count now cutoff articles :
  (length (List.filter (passes cutoff) articles) +
   length (omap (rejection now cutoff) articles))%nat = length articles.
Proof.
  induction articles as [|a l IH]; [reflexivity|].
  cbn [List.filter omap list_omap].
  assert (Hn := rejection_None now cutoff a).
  destruct (rejection now cutoff a) as [r|], (passes cutoff a); simpl; try lia.
  - destruct Hn as [_ Hn]. discriminate (Hn eq_refl).
  - destruct Hn as [Hn _]. discriminate (Hn eq_refl).
Qed.

(** The scan of lines 58-64 stops at the first pattern, in the order of
    the list, that the text matches. *)
Lemma stale_year_scan_first text :
  match stale_year_scan STALE_YEAR_PATTERNS text with
  | Some pattern =>
      exists before year after,
        ["2024"; "2023"; "2022"]%string = before ++ year :: after /\
        whole_word_in year text /\
        (forall y, In y before -> ~ whole_word_in y text) /\
        pattern = Re.word_bounded year
  | None =>
      forall year, In year ["2024"; "2023"; "2022"]%string ->
                   ~ whole_word_in year text
  end.
Proof.
  unfold stale_year_scan, STALE_YEAR_PATTERNS. cbn [List.find].
  assert (H4 := search_word_bounded "2024" text eq_refl eq_refl).
  assert (H3 := search_word_bounded "2023" text eq_refl eq_refl).
  assert (H2 := search_word_bounded "2022" text eq_refl eq_refl).
  destruct (Re.search (Re.word_bounded "2024") text).
  { exists [], "2024"%string, ["2023"; "2022"]%string.
    split; [reflexivity|]. split; [apply H4; reflexivity|].
    split; [intros y []|reflexivity]. }
  destruct (Re.search (Re.word_bounded "2023") text).
  { exists ["2024"%string], "2023"%string, ["2022"%string].
    split; [reflexivity|]. split; [apply H3; reflexivity|].
    split; [|reflexivity].
    intros y [<-|[]] Hy. apply H4 in Hy. discriminate Hy. }
  destruct (Re.search (Re.word_bounded "2022") text).
  { exists ["2024"; "2023"]%string, "2022"%string, [].
    split; [reflexivity|]. split; [apply H2; reflexivity|].
    split; [|reflexivity].
    intros y [<-|[<-|[]]] Hy; [apply H4 in Hy | apply H3 in Hy];
      discriminate Hy. }
  intros year [<-|[<-|[<-|[]]]] Hy;
    [apply H4 in Hy | apply H3 in Hy | apply H2 in Hy]; discriminate Hy.
Qed.

(** The record logged for an article, said without the scan: an article
    that is too old is rejected for its age, whatever its text; one that is
    not is rejected for the first year, in the order of the patterns, that
    its text holds as a whole word. *)
Lemma rejection_cases now cutoff a :
  match rejection now cutoff a with
  | Some r =>
      (exists d, published a = Some d /\ d < cutoff /\
                 r = Debug_rejected_age (now - d) (str_prefix 50 (title a))) \/
      (is_old cutoff a = false /\
       exists before year after,
         ["2024"; "2023"; "2022"]%string = before ++ year :: after /\
         whole_word_in year (title a +:+ " " +:+ summary a) /\
         (forall y, In y before ->
                    ~ whole_word_in y (title a +:+ " " +:+ summary a)) /\
         r = Debug_rejected_stale_year (Re.word_bounded year)
                                       (str_prefix 50 (title a)))
  | None =>
      is_old cutoff a = false /\
      forall year, In year ["2024"; "2023"; "2022"]%string ->
                   ~ whole_word_in year (title a +:+ " " +:+ summary a)
  end.
Proof.
  assert (Hscan := stale_year_scan_first (text_to_check a)).
  unfold rejection, too_old, is_old. unfold text_to_check in Hscan |- *.
  assert (Hfresh :
    match stale_year_scan STALE_YEAR_PATTERNS (title a +:+ " " +:+ summary a) with
    | Some pattern =>
        exists before year after,
          ["2024"; "2023"; "2022"]%string = before ++ year :: after /\
          whole_word_in year (title a +:+ " " +:+ summary a) /\
          (forall y, In y before ->
                     ~ whole_word_in y (title a +:+ " " +:+ summary a)) /\
          Debug_rejected_stale_year pattern (str_prefix 50 (title a)) =
          Debug_rejected_stale_year (Re.word_bounded year)
                                    (str_prefix 50 (title a))
    | None =>
        forall year, In year ["2024"; "2023"; "2022"]%string ->
                     ~ whole_word_in year (title a +:+ " " +:+ summary a)
    end).
  { destruct (stale_year_scan _ _); [|exact Hscan].
    destruct Hscan as (before & year & after & H1 & H2 & H3 & ->).
    exists before, year, after. auto. }
  clear Hscan.
  destruct (published a) as [d|].
  - destruct (Z.ltb_spec d cutoff) as [Hd|Hd].
    + left. exists d. auto.
    + destruct (stale_year_scan _ _); [right|]; split; (reflexivity || exact Hfresh).
  - destruct (stale_year_scan _ _); [right|]; split; (reflexivity || exact Hfresh).
Qed.

(** C7 as stated fails: the patterns carry word boundaries and the text
    checked has a space between title and summary, so 2024 inside 20245, or
    split between the end of the title and the start of the summary, is a
    substring of title plus summary that rejects nothing. *)
Lemma stale_year_substring_counterexample :
  is_substring "2024" (title Scenario.article_20245 +:+
                       summary Scenario.article_20245) = true /\
  is_substring "2024" (title Scenario.article_split +:+
                       summary Scenario.article_split) = true /\
  fst (filter_stale_articles Scenario.frozen
         [Scenario.article_20245; Scenario.article_split] 24 Scenario.start)
    = Ok [Scenario.article_20245; Scenario.article_split].
Proof. vm_compute. repeat split; reflexivity. Qed.

(** C7, amended.  With the switch enabled the filter returns a sublist of
    its input; an article that passes the age check is rejected exactly when
    the text [title + " " + summary] contains 2024, 2023 or 2022 as a whole
    word, with no letter, digit or underscore next to it; and the rejected
    count logged is the number of articles left out, each counted once.
    The first rule that matches wins: the filter logs one debug record per
    article left out, in input order, before the line with the counts; for
    an article that is too old that record is the age record, whatever its
    text; for any other it names the first of the patterns, in the order
    2024, 2023, 2022, that its text matches. *)
Theorem filter_stale_articles_rejects env articles max_age_hours w cutoff :
  STRICT_24H_FILTER env = true ->
  sub_hours (clock env (tick w)) max_age_hours = Some cutoff ->
  exists fresh w',
    filter_stale_articles env articles max_age_hours w = (Ok fresh, w') /\
    sublist fresh articles /\
    (forall a, In a articles -> is_old cutoff a = false ->
       (~ In a fresh <->
        exists year, In year ["2024"; "2023"; "2022"]%string /\
                     whole_word_in year (title a +:+ " " +:+ summary a))) /\
    In (Info_stale_filter (length fresh) (length articles - length fresh) cutoff)
       (log w') /\
    (exists tail,
       log w' =
       log w ++ omap (rejection (clock env (tick w)) cutoff) articles ++
       Info_stale_filter (length fresh) (length articles - length fresh) cutoff
       :: tail) /\
    length (omap (rejection (clock env (tick w)) cutoff) articles) =
      (length articles - length fresh)%nat /\
    (forall a, In a fresh <->
               In a articles /\ rejection (clock env (tick w)) cutoff a = None) /\
    forall a,
      match rejection (clock env (tick w)) cutoff a with
      | Some r =>
          (exists d, published a = Some d /\ d < cutoff /\
                     r = Debug_rejected_age (clock env (tick w) - d)
                                            (str_prefix 50 (title a))) \/
          (is_old cutoff a = false /\
           exists before year after,
             ["2024"; "2023"; "2022"]%string = before ++ year :: after /\
             whole_word_in year (title a +:+ " " +:+ summary a) /\
             (forall y, In y before ->
                        ~ whole_word_in y (title a +:+ " " +:+ summary a)) /\
             r = Debug_rejected_stale_year (Re.word_bounded year)
                                           (str_prefix 50 (title a)))
      | None =>
          is_old cutoff a = false /\
          forall year, In year ["2024"; "2023"; "2022"]%string ->
                       ~ whole_word_in year (title a +:+ " " +:+ summary a)
      end.
Proof.
  intros Hs Hc.
  assert (Hrun := filter_stale_articles_exact env articles max_age_hours w
                    cutoff Hs Hc).
  assert (Hcount := rejected_count (clock env (tick w)) cutoff articles).
  assert (Hlen : length (omap (rejection (clock env (tick w)) cutoff) articles) =
                 (length articles -
                  length (List.filter (passes cutoff) articles))%nat) by lia.
  rewrite Hlen in Hrun.
  eexists _, _. split; [exact Hrun|]. split; [apply filter_bool_sublist|].
  split; [|split; [|split; [|split; [|split]]]].
  - intros a Ha Hold. rewrite <- (has_stale_year_iff a).
    rewrite filter_In. unfold passes. rewrite Hold. cbn [negb andb].
    destruct (has_stale_year a); split; intros H.
    + reflexivity.
    + intros [_ Hd]. discriminate Hd.
    + exfalso. apply H. split; [exact Ha | reflexivity].
    + discriminate H.
  - cbn [log logged advance]. apply in_or_app. right.
    apply in_or_app. right. left. reflexivity.
  - eexists. cbn [log logged advance]. reflexivity.
  - exact Hlen.
  - intros a. rewrite filter_In, rejection_None. reflexivity.
  - intros a. apply rejection_cases.
Qed.

Lemma filter_stale_articles_rejects_witness :
  exists fresh w',
    filter_stale_articles Scenario.frozen
      [Scenario.article_clean; Scenario.article_stale] 24 Scenario.start
      = (Ok fresh, w') /\
    sublist fresh [Scenario.article_clean; Scenario.article_stale] /\
    (forall a, In a [Scenario.article_clean; Scenario.article_stale] ->
       is_old (Scenario.noon - 24 * US_PER_HOUR) a = false ->
       (~ In a fresh <->
        exists year, In year ["2024"; "2023"; "2022"]%string /\
                     whole_word_in year (title a +:+ " " +:+ summary a))) /\
    In (Info_stale_filter (length fresh)
          (length [Scenario.article_clean; Scenario.article_stale] - length fresh)
          (Scenario.noon - 24 * US_PER_HOUR))
       (log w') /\
    (exists tail,
       log w' =
       log Scenario.start ++
       omap (rejection (clock Scenario.frozen (tick Scenario.start))
                       (Scenario.noon - 24 * US_PER_HOUR))
            [Scenario.article_clean; Scenario.article_stale] ++
       Info_stale_filter (length fresh)
         (length [Scenario.article_clean; Scenario.article_stale] - length fresh)
         (Scenario.noon - 24 * US_PER_HOUR)
       :: tail) /\
    length (omap (rejection (clock Scenario.frozen (tick Scenario.start))
                            (Scenario.noon - 24 * US_PER_HOUR))
                 [Scenario.article_clean; Scenario.article_stale]) =
      (length [Scenario.article_clean; Scenario.article_stale] -
       length fresh)%nat /\
    (forall a, In a fresh <->
               In a [Scenario.article_clean; Scenario.article_stale] /\
               rejection (clock Scenario.frozen (tick Scenario.start))
                         (Scenario.noon - 24 * US_PER_HOUR) a = None) /\
    forall a,
      match rejection (clock Scenario.frozen (tick Scenario.start))
                      (Scenario.noon - 24 * US_PER_HOUR) a with
      | Some r =>
          (exists d, published a = Some d /\
                     d < Scenario.noon - 24 * US_PER_HOUR /\
                     r = Debug_rejected_age
                           (clock Scenario.frozen (tick Scenario.start) - d)
                           (str_prefix 50 (title a))) \/
          (is_old (Scenario.noon - 24 * US_PER_HOUR) a = false /\
           exists before year after,
             ["2024"; "2023"; "2022"]%string = before ++ year :: after /\
             whole_word_in year (title a +:+ " " +:+ summary a) /\
             (forall y, In y before ->
                        ~ whole_word_in y (title a +:+ " " +:+ summary a)) /\
             r = Debug_rejected_stale_year (Re.word_bounded year)
                                           (str_prefix 50 (title a)))
      | None =>
          is_old (Scenario.noon - 24 * US_PER_HOUR) a = false /\
          forall year, In year ["2024"; "2023"; "2022"]%string ->
                       ~ whole_word_in year (title a +:+ " " +:+ summary a)
      end.
Proof.
  apply (filter_stale_articles_rejects Scenario.frozen
           [Scenario.article_clean; Scenario.article_stale] 24 Scenario.start
           (Scenario.noon - 24 * US_PER_HOUR)); reflexivity.
Defined.

(** *** Entries without a date *)

(** C9 as stated fails: an undated entry is stamped with the clock, which
    does not keep it when the recency cutoff lies ahead of the clock (here
    [hours = -1]), nor when more than 24 hours pass between the stamp and
    the stale-data filter (here a second source that answers after 25
    hours, with the default [hours = 8]). *)
Lemma undated_entry_counterexample :
  (fst (fetch_recent_news Scenario.undated (-1) 50 Scenario.start) = Ok [] /\
   In (Info_stale_filter 0 0 (Scenario.noon - 24 * US_PER_HOUR))
      (log (snd (fetch_recent_news Scenario.undated (-1) 50 Scenario.start)))) /\
  (fst (fetch_recent_news Scenario.stalled 8 50 Scenario.start_two) = Ok [] /\
   In (Debug_rejected_age (25 * US_PER_HOUR) "Undated item")
      (log (snd (fetch_recent_news Scenario.stalled 8 50 Scenario.start_two)))).
Proof. vm_compute. intuition. Qed.

(** C9, amended.  [_parse_date] always returns: the published date if it
    can be built, else the updated date if it can be built, else the clock.
    For an entry with neither, when [hours] is positive and the clock does
    not run backwards, the entry passes the recency test against a cutoff
    read earlier, so that its dictionary is built, stamped with the clock,
    and appended (or, where its summary is no text, building it raises and
    ends the loop over this source); and the dictionary passes the age check
    of the stale-data filter when the filter reads the clock at most 24
    hours after the stamp. *)
Theorem _parse_date_fallback env entry w hours (t0 tf : nat) url feed rest acc :
  (forall t t' : nat, (t <= t')%nat -> clock env t <= clock env t') ->
  0 < hours ->
  parsed_date entry = None ->
  (t0 <= tick w)%nat ->
  (tick w <= tf)%nat ->
  clock env tf - clock env (tick w) <= 24 * US_PER_HOUR ->
  (forall e w0,
      exists d w1,
        _parse_date env e w0 = (Ok d, w1) /\
        d = match try_datetime (published_parsed e) with
            | Some p => p
            | None =>
                match try_datetime (updated_parsed e) with
                | Some u => u
                | None => clock env (tick w0)
                end
            end) /\
  entries_loop env (clock env t0 - hours * US_PER_HOUR) url feed
               (entry :: rest) acc w =
  match summary_error entry with
  | None =>
      entries_loop env (clock env t0 - hours * US_PER_HOUR) url feed rest
                   (acc ++ [make_article url feed entry (clock env (tick w))])
                   (advance 1 w)
  | Some e => (Ok (acc, Some e), advance 1 w)
  end /\
  too_old (published (make_article url feed entry (clock env (tick w))))
          (clock env tf) (clock env tf - 24 * US_PER_HOUR) = None.
Proof.
  intros Hmono Hpos Hnone Ht0 Htf Hday. split; [|split].
  - intros e w0. rewrite _parse_date_run. unfold parsed_date.
    destruct (try_datetime (published_parsed e)) as [p|];
      [eexists _, _; split; reflexivity|].
    destruct (try_datetime (updated_parsed e)) as [u|];
      eexists _, _; split; reflexivity.
  - rewrite entries_loop_cons. unfold stamp, stamped. rewrite Hnone.
    assert (H := Hmono _ _ Ht0).
    replace (clock env t0 - hours * US_PER_HOUR <? clock env (tick w)) with true;
      [reflexivity|].
    symmetry. apply Z.ltb_lt. unfold US_PER_HOUR, US_PER_SECOND. lia.
  - cbn [published make_article too_old].
    replace (clock env (tick w) <? clock env tf - 24 * US_PER_HOUR) with false;
      [reflexivity|].
    symmetry. apply Z.ltb_ge. lia.
Qed.

Lemma _parse_date_fallback_witness :
  (forall e w0,
      exists d w1,
        _parse_date Scenario.undated e w0 = (Ok d, w1) /\
        d = match try_datetime (published_parsed e) with
            | Some p => p
            | None =>
                match try_datetime (updated_parsed e) with
                | Some u => u
                | None => clock Scenario.undated (tick w0)
                end
            end) /\
  entries_loop Scenario.undated (clock Scenario.undated 0 - 8 * US_PER_HOUR)
               Scenario.url Scenario.feed_undated
               [Scenario.entry_undated] [] (advance 2 Scenario.start) =
  match summary_error Scenario.entry_undated with
  | None =>
      entries_loop Scenario.undated
                   (clock Scenario.undated 0 - 8 * US_PER_HOUR)
                   Scenario.url Scenario.feed_undated []
                   ([] ++ [make_article Scenario.url Scenario.feed_undated
                             Scenario.entry_undated
                             (clock Scenario.undated
                                    (tick (advance 2 Scenario.start)))])
                   (advance 1 (advance 2 Scenario.start))
  | Some e => (Ok ([], Some e), advance 1 (advance 2 Scenario.start))
  end /\
  too_old (published (make_article Scenario.url Scenario.feed_undated
                        Scenario.entry_undated
                        (clock Scenario.undated (tick (advance 2 Scenario.start)))))
          (clock Scenario.undated 3)
          (clock Scenario.undated 3 - 24 * US_PER_HOUR) = None.
Proof.
  apply (_parse_date_fallback Scenario.undated Scenario.entry_undated
           (advance 2 Scenario.start) 8 0 3).
  - intros t t' _. simpl. lia.
  - lia.
  - reflexivity.
  - simpl. lia.
  - simpl. lia.
  - vm_compute. discriminate.
Defined.

(** *** A source that fails *)





















(** *** Summaries longer than 500 characters *)

Lemma str_prefix_append (pre tail : string) :
  str_prefix (String.length pre) (pre +:+ tail) = pre.
Proof.
  unfold str_prefix. induction pre as [|c pre IH].
  - rewrite append_nil_l. destruct tail; reflexivity.
  - rewrite append_cons. cbn [String.length substring]. rewrite IH. reflexivity.
Qed.

Lemma same_up_to_500_article url f1 f2 e1 e2 d :
  feed_title f1 = feed_title f2 -> same_up_to_500 e1 e2 ->
  make_article url f1 e1 d = make_article url f2 e2 d /\
  parsed_date e1 = parsed_date e2.
Proof.
  intros Hf (Ht & Hl & Hp & Hu & _ & Hs). unfold make_article, parsed_date.
  rewrite Hf, Ht, Hl, Hp, Hu, Hs. split; reflexivity.
Qed.

Lemma entries_loop_agree env p' c url f1 f2 :
  feed_title f1 = feed_title f2 ->
  forall es1 es2,
    Forall2 same_up_to_500 es1 es2 ->
    forall acc w,
      entries_loop (with_parse env p') c url f2 es2 acc w =
      entries_loop env c url f1 es1 acc w.
Proof.
  intros Hf es1 es2 H. induction H as [|e1 e2 es1 es2 He _ IH]; intros acc w;
    [reflexivity|].
  rewrite !entries_loop_cons.
  destruct (same_up_to_500_article url f1 f2 e1 e2 (stamp env e1 w) Hf He)
    as [Ha Hd].
  assert (Herr : summary_error e2 = summary_error e1)
    by (symmetry; apply He).
  assert (Hst : stamp (with_parse env p') e2 w = stamp env e1 w)
    by (unfold stamp; rewrite Hd; reflexivity).
  assert (Hw : stamped e2 w = stamped e1 w)
    by (unfold stamped; rewrite Hd; reflexivity).
  rewrite Hst, Hw, Herr, <- Ha.
  destruct (c <? stamp env e1 w); [|apply IH].
  destruct (summary_error e1); [reflexivity | apply IH].
Qed.

Lemma feeds_loop_agree env p' c urls :
  oracles_agree (parse_oracle env) p' ->
  forall acc w,
    feeds_loop (with_parse env p') c urls acc w = feeds_loop env c urls acc w.
Proof.
  intros Hp. induction urls as [|url rest IH]; intros acc w; [reflexivity|].
  rewrite !feeds_loop_cons. cbn [parse_oracle with_parse].
  specialize (Hp (tick w) url).
  destruct (parse_oracle env (tick w) url) as [f1|e1],
           (p' (tick w) url) as [f2|e2]; try contradiction.
  - destruct Hp as [Hf He]. unfold bind.
    rewrite (entries_loop_agree env p' c url f1 f2 Hf _ _ He).
    destruct (entries_loop env c url f1 (entries f1) acc _) as [[a|e] w'];
      [apply IH | reflexivity].
  - subst e2. apply IH.
Qed.

(** C10. The summary is cut to 500 characters when the article is built,
    before any check: two behaviours of the sources that differ only in
    summary text past the first 500 characters give the same call, result,
    cache and log alike; and the stale-year test of an article looks at the
    title and the first 500 characters of the summary only, so that a year
    further on rejects nothing. *)
Theorem summary_beyond_500_ignored env p' hours limit w :
  oracles_agree (parse_oracle env) p' ->
  fetch_recent_news (with_parse env p') hours limit w =
  fetch_recent_news env hours limit w /\
  forall url feed entry d pre tail,
    entry_summary entry = Some (Text (pre +:+ tail)) ->
    String.length pre = 500%nat ->
    (has_stale_year (make_article url feed entry d) = true <->
     exists year, In year ["2024"; "2023"; "2022"]%string /\
                  whole_word_in year
                    (default "No title" (entry_title entry) +:+ " " +:+ pre)).
Proof.
  intros Hp. split.
  - rewrite !fetch_recent_news_unfold. cbn [clock with_parse].
    destruct (sub_hours (clock env (tick w)) hours) as [c|]; [|reflexivity].
    unfold bind at 1 3. rewrite (feeds_loop_agree env p' c _ Hp). reflexivity.
  - intros url feed entry d pre tail Hsum Hlen.
    rewrite has_stale_year_iff. unfold text_to_check, make_article.
    cbn [title summary]. unfold summary_text. rewrite Hsum.
    rewrite <- Hlen, str_prefix_append. reflexivity.
Qed.

Lemma summary_beyond_500_ignored_witness :
  fetch_recent_news (with_parse Scenario.long_2024 Scenario.parse_long_clean)
                    8 50 Scenario.start =
  fetch_recent_news Scenario.long_2024 8 50 Scenario.start /\
  forall url feed entry d pre tail,
    entry_summary entry = Some (Text (pre +:+ tail)) ->
    String.length pre = 500%nat ->
    (has_stale_year (make_article url feed entry d) = true <->
     exists year, In year ["2024"; "2023"; "2022"]%string /\
                  whole_word_in year
                    (default "No title" (entry_title entry) +:+ " " +:+ pre)).
Proof.
  apply (summary_beyond_500_ignored Scenario.long_2024 Scenario.parse_long_clean
           8 50 Scenario.start).
  intros t u. simpl. split; [reflexivity|].
  constructor; [|constructor]. repeat split; vm_compute; reflexivity.
Defined.

(* ===================================================================== *)
(** * Further properties *)
(* ===================================================================== *)

(** ** What a call returns *)

(** The articles returned are collected articles with an id put on. *)
Lemma fetch_recent_news_from_cands env hours limit w res w' :
  fetch_recent_news env hours limit w = (Ok res, w') ->
  exists cutoff_time cands w1,
    sub_hours (clock env (tick w)) hours = Some cutoff_time /\
    feeds_loop env cutoff_time (feeds (this w)) [] (loop_start w) =
      (Ok cands, w1) /\
    Forall (candidate cutoff_time) cands /\
    forall a, In a res ->
      exists a0 i,
        In a0 cands /\ a = set_id a0 i /\
        (STRICT_24H_FILTER env = true -> has_stale_year a0 = false).
Proof.
  intros H. apply fetch_recent_news_inv in H.
  destruct H as (c & cands & n & rs & sorted & Hsub & Hloop & Hc & Hperm &
                 _ & _ & Hres & _).
  exists c, cands, (logged (advance n (loop_start w)) rs).
  split; [exact Hsub|]. split; [exact Hloop|]. split; [exact Hc|].
  intros a Ha. subst res. apply In_number_from in Ha.
  destruct Ha as (a0 & i & Hin & ->). apply In_slice_to in Hin.
  exists a0, i. unfold kept in Hin.
  destruct (STRICT_24H_FILTER env).
  - apply filter_In in Hin. destruct Hin as [Hin Hp].
    split; [|split; [reflexivity|]].
    + apply list_elem_of_In. rewrite <- Hperm. apply list_elem_of_In, Hin.
    + intros _. unfold passes in Hp. apply andb_true_iff in Hp.
      destruct Hp as [_ Hp]. destruct (has_stale_year a0); [discriminate Hp|reflexivity].
  - split; [|split; [reflexivity|discriminate]].
    apply list_elem_of_In. rewrite <- Hperm. apply list_elem_of_In, Hin.
Qed.

Lemma headlines_of_number_from l :
  forall i w,
    headlines_of (number_from i l) w =
    (Ok (headlines_from i (number_from i l)), w).
Proof.
  induction l as [|a l IH]; intros i w; [reflexivity|].
  cbn [number_from headlines_of headlines_from id set_id title source].
  unfold bind. rewrite IH. reflexivity.
Qed.

(** X1. [get_all_headlines] is the fetch followed by a projection: it
    raises only if the fetch does, leaves the state the fetch leaves, and
    returns for the article at position [i] its title and source under the
    id [i]; the ["id"] subscript never fails. *)
Theorem get_all_headlines_projects env hours limit w :
  get_all_headlines env hours limit w =
  match fetch_recent_news env hours limit w with
  | (Ok res, w') => (Ok (headlines_from 0 res), w')
  | (Raise e, w') => (Raise e, w')
  end.
Proof.
  unfold get_all_headlines, bind.
  destruct (fetch_recent_news env hours limit w) as [[res|e] w'] eqn:H;
    [|reflexivity].
  apply fetch_recent_news_inv in H.
  destruct H as (c & cands & n & rs & sorted & _ & _ & _ & _ & _ & _ & Hres & _).
  subst res. apply headlines_of_number_from.
Qed.

(** ** The log of the filter *)

(** X2. With the switch on, [filter_stale_articles] logs one debug record
    for each article it leaves out, in input order and for the first rule
    that rejects it (age before stale year), then the summary line whose two
    counts add up to the input length, then the all-filtered-out warning
    exactly when nothing is left. *)
Theorem filter_stale_articles_log env articles max_age_hours w cutoff :
  STRICT_24H_FILTER env = true ->
  sub_hours (clock env (tick w)) max_age_hours = Some cutoff ->
  exists fresh rejected tail,
    filter_stale_articles env articles max_age_hours w =
    (Ok fresh,
     logged (advance 1 w)
       (omap (rejection (clock env (tick w)) cutoff) articles ++
        Info_stale_filter (length fresh) rejected cutoff :: tail)) /\
    (length fresh + rejected)%nat = length articles /\
    (tail = [Warning_all_filtered_out] /\ fresh = [] \/
     tail = [] /\ fresh <> []) /\
    forall a d, In a articles ->
      published a = Some d -> d < cutoff ->
      rejection (clock env (tick w)) cutoff a =
      Some (Debug_rejected_age (clock env (tick w) - d)
                               (str_prefix 50 (title a))).
Proof.
  intros Hs Hc. eexists _, _, _. split.
  - apply filter_stale_articles_exact; eassumption.
  - split; [apply rejected_count|]. split.
    + destruct (List.filter (passes cutoff) articles) as [|x l];
        [left | right]; split; (reflexivity || discriminate).
    + intros a d _ Hd Hlt. unfold rejection, too_old. rewrite Hd.
      replace (d <? cutoff) with true by (symmetry; apply Z.ltb_lt, Hlt).
      reflexivity.
Qed.

(** ** Where the articles come from *)

Lemma stamp_cases env entry w :
  parsed_date entry = Some (stamp env entry w) \/
  parsed_date entry = None /\ exists t, stamp env entry w = clock env t.
Proof.
  unfold stamp. destruct (parsed_date entry); [left; reflexivity|].
  right. split; [reflexivity | eexists; reflexivity].
Qed.

Lemma entries_loop_built env c url feed es :
  forall acc w,
  exists new n raised,
    entries_loop env c url feed es acc w =
      (Ok (acc ++ new, raised), advance n w) /\
    Forall (fun a => exists entry p,
                In entry es /\
                (parsed_date entry = Some p \/
                 parsed_date entry = None /\ exists t, p = clock env t) /\
                summary_error entry = None /\
                a = make_article url feed entry p) new /\
    forall e, raised = Some e ->
              exists entry, In entry es /\ summary_error entry = Some e.
Proof.
  induction es as [|entry rest IH]; intros acc w.
  - exists [], 0%nat, None. rewrite advance_0, app_nil_r.
    split; [reflexivity|]. split; [constructor | discriminate].
  - rewrite entries_loop_cons.
    assert (Hweak : forall l,
      Forall (fun a => exists entry0 p,
                  In entry0 rest /\
                  (parsed_date entry0 = Some p \/
                   parsed_date entry0 = None /\ exists t, p = clock env t) /\
                  summary_error entry0 = None /\
                  a = make_article url feed entry0 p) l ->
      Forall (fun a => exists entry0 p,
                  In entry0 (entry :: rest) /\
                  (parsed_date entry0 = Some p \/
                   parsed_date entry0 = None /\ exists t, p = clock env t) /\
                  summary_error entry0 = None /\
                  a = make_article url feed entry0 p) l).
    { intros l Hl. eapply Forall_impl; [exact Hl|].
      intros a (e0 & p & Hin & Hd & Ha).
      exists e0, p. split; [right; exact Hin | auto]. }
    assert (Hweak2 : forall raised : option exn,
      (forall e, raised = Some e ->
                 exists entry0, In entry0 rest /\ summary_error entry0 = Some e) ->
      forall e, raised = Some e ->
                exists entry0, In entry0 (entry :: rest) /\
                               summary_error entry0 = Some e).
    { intros raised H e He. destruct (H e He) as (e0 & Hin & Hs).
      exists e0. split; [right; exact Hin | exact Hs]. }
    destruct (stamped_advance entry w) as [k ->].
    destruct (c <? stamp env entry w).
    + destruct (summary_error entry) as [e|] eqn:Hsum.
      * exists [], k, (Some e). rewrite app_nil_r.
        split; [reflexivity|]. split; [constructor|].
        intros e' He'. inversion He'; subst e'.
        exists entry. split; [left; reflexivity | exact Hsum].
      * destruct (IH (acc ++ [make_article url feed entry (stamp env entry w)])
                     (advance k w)) as (new & n & raised & -> & Hnew & Hr).
        exists (make_article url feed entry (stamp env entry w) :: new),
               (n + k)%nat, raised.
        rewrite advance_advance, <- app_assoc. split; [reflexivity|].
        split; [|apply Hweak2, Hr].
        constructor; [|apply Hweak, Hnew].
        exists entry, (stamp env entry w). split; [left; reflexivity|].
        split; [apply stamp_cases|]. split; [exact Hsum | reflexivity].
    + destruct (IH acc (advance k w)) as (new & n & raised & -> & Hnew & Hr).
      exists new, (n + k)%nat, raised. rewrite advance_advance.
      split; [reflexivity|]. split; [apply Hweak, Hnew | apply Hweak2, Hr].
Qed.

(** The loop over the feeds collects articles built from entries of the
    feeds it was given, and logs one fetching line per source, in order,
    with an error line after it where the source raised. *)
Lemma feeds_loop_built env c urls :
  forall acc w,
  exists new n rs,
    feeds_loop env c urls acc w = (Ok (acc ++ new), logged (advance n w) rs) /\
    Forall (fun a => exists url feed entry p,
                In url urls /\ built_from env url feed entry p a) new /\
    omap fetching rs = urls /\
    Forall (fun ue => In (fst ue) urls /\ source_raised env (fst ue) (snd ue))
           (omap failure rs).
Proof.
  induction urls as [|url rest IH]; intros acc w.
  - exists [], 0%nat, []. rewrite advance_0, logged_nil, app_nil_r.
    repeat split; constructor.
  - rewrite feeds_loop_cons.
    assert (Hweak : forall l,
      Forall (fun a => exists url0 feed entry p,
                  In url0 rest /\ built_from env url0 feed entry p a) l ->
      Forall (fun a => exists url0 feed entry p,
                  In url0 (url :: rest) /\ built_from env url0 feed entry p a) l).
    { intros l Hl. eapply Forall_impl; [exact Hl|]. intros a (u0 & f & e0 & p & Hin & Hb).
      exists u0, f, e0, p. split; [right; exact Hin | exact Hb]. }
    assert (Hweak2 : forall l : list (string * exn),
      Forall (fun ue => In (fst ue) rest /\
                        source_raised env (fst ue) (snd ue)) l ->
      Forall (fun ue => In (fst ue) (url :: rest) /\
                        source_raised env (fst ue) (snd ue)) l).
    { intros l Hl. eapply Forall_impl; [exact Hl|].
      intros ue [Hin Hr]. split; [right; exact Hin | exact Hr]. }
    destruct (parse_oracle env (tick w) url) as [feed|e] eqn:Hparse.
    + destruct (entries_loop_built env c url feed (entries feed) acc
                  (logged (advance 1 w) [Info_fetching_from url]))
        as (new1 & n1 & raised & Hrun1 & Hnew1 & Hraised).
      rewrite (bind_run _ _ _ _ _ Hrun1). cbn [fst snd].
      destruct (IH (acc ++ new1)
                   (logged (advance n1 (logged (advance 1 w)
                                          [Info_fetching_from url]))
                           (error_line url raised)))
        as (new2 & n2 & rs2 & -> & Hnew2 & Hf2 & He2).
      exists (new1 ++ new2), (n2 + (n1 + 1))%nat,
             (Info_fetching_from url :: error_line url raised ++ rs2).
      split; [|split; [|split]].
      * unfold advance, logged. cbn [tick log this].
        rewrite <- !app_assoc. same_run.
      * apply Forall_app. split; [|apply Hweak, Hnew2].
        eapply Forall_impl; [exact Hnew1|].
        intros a (e0 & p & Hin & Hd & Hs & Ha). exists url, feed, e0, p.
        split; [left; reflexivity|]. unfold built_from. eauto 7.
      * cbn [omap list_omap fetching]. rewrite omap_app, Hf2.
        destruct raised; reflexivity.
      * cbn [omap list_omap failure]. rewrite omap_app.
        apply Forall_app. split; [|apply Hweak2, He2].
        destruct raised as [e|]; [|constructor].
        cbn [error_line omap list_omap failure]. constructor; [|constructor].
        split; [left; reflexivity|]. right.
        destruct (Hraised e eq_refl) as (e0 & Hin & Hs).
        exists (tick w), feed, e0. auto.
    + destruct (IH acc (logged (advance 1 w)
                          [Info_fetching_from url; Error_fetching url e]))
        as (new2 & n2 & rs2 & -> & Hnew2 & Hf2 & He2).
      exists new2, (n2 + 1)%nat,
             (Info_fetching_from url :: Error_fetching url e :: rs2).
      split; [|split; [|split]].
      * unfold advance, logged. cbn [tick log this].
        rewrite <- !app_assoc. same_run.
      * apply Hweak, Hnew2.
      * cbn [omap list_omap fetching]. rewrite Hf2. reflexivity.
      * cbn [omap list_omap failure]. constructor; [|apply Hweak2, He2].
        split; [left; reflexivity | left; eexists; exact Hparse].
Qed.

Lemma fetch_recent_news_built env hours limit w res w' :
  fetch_recent_news env hours limit w = (Ok res, w') ->
  forall a, In a res ->
    exists a0 i url feed entry p,
      a = set_id a0 i /\ In url (feeds (this w)) /\
      built_from env url feed entry p a0.
Proof.
  intros H a Ha.
  destruct (fetch_recent_news_from_cands _ _ _ _ _ _ H)
    as (c & cands & w1 & _ & Hloop & _ & Hres).
  destruct (Hres a Ha) as (a0 & i & Hin & -> & _).
  destruct (feeds_loop_built env c (feeds (this w)) [] (loop_start w))
    as (new & n & rs & Hrun & Hnew & _).
  rewrite Hrun in Hloop. inversion Hloop; subst cands.
  rewrite Forall_forall in Hnew. apply list_elem_of_In, Hnew in Hin.
  destruct Hin as (url & feed & entry & p & Hu & Hb).
  exists a0, i, url, feed, entry, p. auto.
Qed.

(** X3. Nothing is made up: every article returned was built from an
    entry of a feed that [feedparser.parse] returned for one of the
    configured sources, an entry whose summary, if it has one, is text.  Its
    title, link and summary are the entry's (with the defaults "No title"
    and the empty text, the summary cut to 500 characters), its source is
    the feed's title or else the source's URL, and its date is the entry's
    parsed date or, for an entry without one, a reading of the clock. *)
Theorem fetch_recent_news_provenance env hours limit w res w' :
  fetch_recent_news env hours limit w = (Ok res, w') ->
  forall a, In a res ->
    exists feed_url feed entry p,
      In feed_url (feeds (this w)) /\
      (exists t, parse_oracle env t feed_url = Ok feed) /\
      In entry (entries feed) /\
      (parsed_date entry = Some p \/
       parsed_date entry = None /\ exists t, p = clock env t) /\
      title a = default "No title" (entry_title entry) /\
      link a = default "" (entry_link entry) /\
      source a = default feed_url (feed_title feed) /\
      published a = Some p /\
      summary_error entry = None /\
      summary a = str_prefix 500 (summary_text entry).
Proof.
  intros H a Ha.
  destruct (fetch_recent_news_built _ _ _ _ _ _ H a Ha)
    as (a0 & i & url & feed & entry & p & -> & Hu & Ho & He & Hd & Hs & ->).
  exists url, feed, entry, p. repeat split; assumption.
Qed.

Lemma str_prefix_length n s : (String.length (str_prefix n s) <= n)%nat.
Proof.
  unfold str_prefix. revert s. induction n as [|n IH]; intros s.
  - destruct s; simpl; lia.
  - destruct s as [|c s]; [simpl; lia|].
    cbn [substring String.length]. specialize (IH s). lia.
Qed.

(** X4. No summary returned is longer than 500 characters, however long
    the source's summary is. *)
Theorem fetch_recent_news_summary_bound env hours limit w res w' :
  fetch_recent_news env hours limit w = (Ok res, w') ->
  forall a, In a res -> (String.length (summary a) <= 500)%nat.
Proof.
  intros H a Ha.
  destruct (fetch_recent_news_built _ _ _ _ _ _ H a Ha)
    as (a0 & i & url & feed & entry & p & -> & _ & _ & _ & _ & _ & ->).
  apply str_prefix_length.
Qed.

(** X5. Every article returned is dated strictly after the recency cutoff,
    the clock reading taken when the call starts minus [hours]. *)
Theorem fetch_recent_news_in_window env hours limit w res w' :
  fetch_recent_news env hours limit w = (Ok res, w') ->
  forall a, In a res ->
    exists p, published a = Some p /\
              clock env (tick w) - hours * US_PER_HOUR < p.
Proof.
  intros H a Ha.
  destruct (fetch_recent_news_from_cands _ _ _ _ _ _ H)
    as (c & cands & w1 & Hc & _ & Hcands & Hres).
  destruct (Hres a Ha) as (a0 & i & Hin & -> & _).
  rewrite Forall_forall in Hcands. apply list_elem_of_In, Hcands in Hin.
  destruct Hin as [_ (p & Hp & Hlt)]. apply sub_hours_Some in Hc. subst c.
  exists p. split; [exact Hp | exact Hlt].
Qed.

(** X6. With the switch on, no article returned speaks of 2024, 2023 or
    2022 as a whole word in its title or summary as returned. *)
Theorem fetch_recent_news_no_stale_year env hours limit w res w' :
  STRICT_24H_FILTER env = true ->
  fetch_recent_news env hours limit w = (Ok res, w') ->
  forall a year,
    In a res -> In year ["2024"; "2023"; "2022"]%string ->
    ~ whole_word_in year (title a +:+ " " +:+ summary a).
Proof.
  intros Hs H a year Ha Hy Hw.
  destruct (fetch_recent_news_from_cands _ _ _ _ _ _ H)
    as (c & cands & w1 & _ & _ & _ & Hres).
  destruct (Hres a Ha) as (a0 & i & _ & -> & Hno).
  specialize (Hno Hs).
  assert (Hyes : has_stale_year a0 = true).
  { apply has_stale_year_iff. exists year. split; [exact Hy | exact Hw]. }
  congruence.
Qed.

(** ** The log of a call *)

Lemma omap_fetching_rejection now cutoff l :
  omap fetching (omap (rejection now cutoff) l) = [] /\
  omap failure (omap (rejection now cutoff) l) = [].
Proof.
  induction l as [|a l [IH1 IH2]]; [split; reflexivity|].
  cbn [omap list_omap].
  destruct (rejection now cutoff a) as [r|] eqn:Hr; [|split; assumption].
  assert (Hd : fetching r = None /\ failure r = None).
  { unfold rejection in Hr.
    destruct (too_old (published a) now cutoff);
      [inversion Hr; split; reflexivity|].
    destruct (stale_year_scan STALE_YEAR_PATTERNS (text_to_check a));
      inversion Hr; split; reflexivity. }
  destruct Hd as [Hd1 Hd2]. cbn [omap list_omap]. rewrite Hd1, Hd2.
  split; assumption.
Qed.

Lemma after_sort_log env limit sorted w1 res w2 :
  after_sort env limit sorted w1 = (Ok res, w2) ->
  exists rs,
    log w2 = log w1 ++ rs ++ [Info_fetched (length res)] /\
    omap fetching rs = [] /\ omap failure rs = [].
Proof.
  unfold after_sort. intros H.
  apply bind_Ok_inv in H. destruct H as (fresh & wf & Hf & H).
  apply bind_Ok_inv in H. destruct H as (res' & wi & Hi & H).
  unfold bind, logger, ret in H. inversion H; subst res' w2. clear H.
  destruct (id_loop_run (slice_to limit fresh) 0 wf) as (c' & Hrun & _).
  rewrite Hrun in Hi. inversion Hi; subst res wi. clear Hi.
  cbn [log]. rewrite number_from_length.
  destruct (STRICT_24H_FILTER env) eqn:Hs.
  - destruct (sub_hours (clock env (tick w1)) 24) as [cutoff|] eqn:Hc.
    + rewrite (filter_stale_articles_exact env sorted 24 w1 cutoff Hs Hc) in Hf.
      inversion Hf; subst fresh wf. clear Hf.
      eexists. cbn [log logged advance]. rewrite <- app_assoc.
      split; [reflexivity|].
      destruct (omap_fetching_rejection (clock env (tick w1)) cutoff sorted)
        as [H1 H2].
      rewrite !omap_app, H1, H2.
      destruct (Nat.eqb _ 0); split; reflexivity.
    + rewrite (filter_stale_articles_overflow env sorted 24 w1 Hs Hc) in Hf.
      discriminate Hf.
  - rewrite (filter_stale_articles_disabled env sorted 24 w1 Hs) in Hf.
    inversion Hf; subst fresh wf. clear Hf.
    exists [Warning_filter_disabled]. cbn [log logged].
    rewrite <- app_assoc. repeat split; reflexivity.
Qed.

(** X7. A call that returns has tried every configured source exactly
    once, in the configured order, sources after a failing one included: the
    fetching lines it logs are the list [self.feeds].  Every error line names
    a configured source and the error it raised: the one [feedparser.parse]
    raised for it, or the one raised by the summary of an entry of a feed
    returned for it.  The last line gives the number of articles
    returned. *)
Theorem fetch_recent_news_log env hours limit w res w' :
  fetch_recent_news env hours limit w = (Ok res, w') ->
  exists rs,
    log w' = log w ++ rs ++ [Info_fetched (length res)] /\
    omap fetching rs = feeds (this w) /\
    forall feed_url e,
      In (feed_url, e) (omap failure rs) ->
      In feed_url (feeds (this w)) /\
      ((exists t, parse_oracle env t feed_url = Raise e) \/
       (exists t feed entry,
          parse_oracle env t feed_url = Ok feed /\
          In entry (entries feed) /\ summary_error entry = Some e)).
Proof.
  rewrite fetch_recent_news_unfold. intros H.
  destruct (sub_hours (clock env (tick w)) hours) as [c|]; [|discriminate H].
  destruct (feeds_loop_built env c (feeds (this w)) [] (loop_start w))
    as (cands & n & rs1 & Hloop & Hbuilt & Hf1 & He1).
  destruct (feeds_loop_run env c (feeds (this w)) [] (loop_start w))
    as (cands' & n' & rs' & Hloop' & Hcands).
  rewrite Hloop in Hloop'. inversion Hloop'; subst cands'. clear Hloop'.
  cbn [app] in Hloop. rewrite (bind_run _ _ _ _ _ Hloop) in H.
  destruct (sort_by_published_run c cands (logged (advance n (loop_start w)) rs1) Hcands)
    as (sorted & Hsort & _).
  rewrite (bind_run _ _ _ _ _ Hsort) in H.
  apply after_sort_log in H. destruct H as (rs2 & Hlog & Hf2 & He2).
  exists (rs1 ++ rs2). cbn [log logged advance loop_start] in Hlog.
  rewrite Hlog, <- !app_assoc. split; [reflexivity|].
  rewrite !omap_app, Hf1, Hf2, He2, !app_nil_r. split; [reflexivity|].
  intros url e Hin. rewrite Forall_forall in He1.
  apply list_elem_of_In, He1 in Hin. exact Hin.
Qed.

(** ** When a call returns *)


(** ** Looking articles up *)

Lemma filter_bool_app {A} (f : A -> bool) (l1 l2 : list A) :
  List.filter f (l1 ++ l2) = List.filter f l1 ++ List.filter f l2.
Proof.
  induction l1 as [|x l1 IH]; [reflexivity|].
  cbn [app List.filter]. destruct (f x); [cbn [app]|]; rewrite IH; reflexivity.
Qed.

(** X9. [get_articles_by_ids] only reads: in any state it returns without
    raising, leaves the fetcher and the clock alone and adds nothing but
    warnings to the log.  Asking for [ids1 ++ ids2] is asking for [ids1],
    then for [ids2]: the answers are concatenated and the warnings come in
    the same order. *)
Theorem get_articles_by_ids_app ids1 ids2 w :
  exists r1 r2 m1 m2,
    get_articles_by_ids ids1 w =
      (Ok r1, logged w (map Warning_id_not_found m1)) /\
    get_articles_by_ids ids2 (logged w (map Warning_id_not_found m1)) =
      (Ok r2, logged w (map Warning_id_not_found (m1 ++ m2))) /\
    get_articles_by_ids (ids1 ++ ids2) w =
      (Ok (r1 ++ r2), logged w (map Warning_id_not_found (m1 ++ m2))) /\
    (length r1 + length m1)%nat = length ids1 /\
    (length r2 + length m2)%nat = length ids2.
Proof.
  set (f := fun k : Z => _articles_cache (this w) !! k).
  set (miss := fun i : Z => match f i with Some _ => false | None => true end).
  assert (Hlen : forall ids,
             (length (omap f ids) + length (List.filter miss ids))%nat = length ids).
  { induction ids as [|i ids IH]; [reflexivity|].
    cbn [omap list_omap List.filter]. unfold miss at 1.
    destruct (f i); simpl; lia. }
  exists (omap f ids1), (omap f ids2), (List.filter miss ids1), (List.filter miss ids2).
  split; [|split; [|split; [|split]]].
  - apply get_articles_by_ids_run. reflexivity.
  - rewrite (get_articles_by_ids_run f ids2) by reflexivity.
    rewrite logged_logged, map_app. reflexivity.
  - rewrite (get_articles_by_ids_run f (ids1 ++ ids2)) by reflexivity.
    rewrite omap_app. fold miss. rewrite filter_bool_app. reflexivity.
  - apply Hlen.
  - apply Hlen.
Qed.

(** X10. Before any fetch the cache is empty: on a fetcher fresh from the
    constructor, [get_articles_by_ids] returns the empty list and logs one
    warning per id asked, in order, whatever the ids. *)
Theorem get_articles_by_ids_before_fetch RSS_FEEDS feeds ids t lg :
  get_articles_by_ids ids (mkWorld t lg (__init__ RSS_FEEDS feeds)) =
  (Ok [], mkWorld t (lg ++ map Warning_id_not_found ids)
                  (__init__ RSS_FEEDS feeds)).
Proof.
  rewrite (get_articles_by_ids_run (fun _ => None)).
  - assert (H : omap (fun _ : Z => @None Article) ids = [] /\
                List.filter (fun _ : Z => true) ids = ids).
    { induction ids as [|i ids [IH1 IH2]]; [split; reflexivity|].
      cbn [omap list_omap List.filter]. rewrite IH1, IH2. split; reflexivity. }
    destruct H as [-> ->]. reflexivity.
  - intros k. unfold __init__. cbn [this _articles_cache]. apply lookup_empty.
Qed.




(** ** The limit *)

Lemma firstn_number_from n l :
  forall i, firstn n (number_from i l) = number_from i (firstn n l).
Proof.
  revert l. induction n as [|n IH]; intros [|a l] i; try reflexivity.
  cbn [number_from firstn]. rewrite IH. reflexivity.
Qed.

Lemma slice_to_number_from k i l :
  slice_to k (number_from i l) = number_from i (slice_to k l).
Proof.
  unfold slice_to. rewrite number_from_length.
  destruct (0 <=? k); apply firstn_number_from.
Qed.

Lemma after_sort_same_kept env sorted w1 l m r1 w1' r2 w2' :
  after_sort env l sorted w1 = (Ok r1, w1') ->
  after_sort env m sorted w1 = (Ok r2, w2') ->
  exists K, r1 = number_from 0 (slice_to l K) /\
            r2 = number_from 0 (slice_to m K).
Proof.
  intros H1 H2. apply after_sort_inv in H1, H2.
  destruct H1 as [-> _], H2 as [-> _]. eexists. split; reflexivity.
Qed.

(** X12. The limit is applied last, as the slice [[:limit]]: a call never
    returns more than a non-negative [limit], and what it returns is that
    slice of what the same call returns under a limit large enough to cut
    nothing, so that a negative limit drops articles from the old end
    instead of raising. *)
Theorem fetch_recent_news_limit env hours limit big w r1 w1 r2 w2 :
  fetch_recent_news env hours limit w = (Ok r1, w1) ->
  fetch_recent_news env hours big w = (Ok r2, w2) ->
  Z.of_nat (length r2) < big ->
  r1 = slice_to limit r2 /\
  (0 <= limit -> Z.of_nat (length r1) <= limit).
Proof.
  rewrite !fetch_recent_news_unfold.
  destruct (sub_hours (clock env (tick w)) hours) as [c|]; [|discriminate].
  unfold bind.
  destruct (feeds_loop env c (feeds (this w)) [] (loop_start w))
    as [[cands|e] wl]; [|discriminate].
  destruct (sort_by_published cands wl) as [[sorted|e] ws]; [|discriminate].
  intros H1 H2 Hbig.
  destruct (after_sort_same_kept _ _ _ _ _ _ _ _ _ H1 H2) as (K & -> & ->).
  rewrite number_from_length in Hbig.
  assert (HK : slice_to big K = K).
  { unfold slice_to in *. destruct (Z.leb_spec 0 big); [|lia].
    apply firstn_all2. rewrite length_firstn in Hbig. lia. }
  rewrite HK, slice_to_number_from. split; [reflexivity|].
  intros Hl. rewrite number_from_length. unfold slice_to.
  destruct (Z.leb_spec 0 limit); [|lia]. rewrite length_firstn. lia.
Qed.

(** ** The filter on its own *)

Lemma filter_bool_mono {A} (f g : A -> bool) (l : list A) :
  (forall x, f x = true -> g x = true) ->
  sublist (List.filter f l) (List.filter g l).
Proof.
  intros Hfg. induction l as [|x l IH]; [constructor|].
  cbn [List.filter]. destruct (f x) eqn:Hf.
  - rewrite (Hfg x Hf). constructor. exact IH.
  - destruct (g x); [constructor|]; exact IH.
Qed.

(** X13. Read at the same moment, a larger maximal age never rejects what
    a smaller one keeps: the articles kept for [h1] are, in order, among
    those kept for any [h2] at least as large. *)
Theorem filter_stale_articles_monotone env articles h1 h2 w c1 c2 :
  STRICT_24H_FILTER env = true ->
  h1 <= h2 ->
  sub_hours (clock env (tick w)) h1 = Some c1 ->
  sub_hours (clock env (tick w)) h2 = Some c2 ->
  exists fresh1 fresh2 w1 w2,
    filter_stale_articles env articles h1 w = (Ok fresh1, w1) /\
    filter_stale_articles env articles h2 w = (Ok fresh2, w2) /\
    sublist fresh1 fresh2.
Proof.
  intros Hs Hle H1 H2.
  rewrite (filter_stale_articles_exact env articles h1 w c1 Hs H1).
  rewrite (filter_stale_articles_exact env articles h2 w c2 Hs H2).
  eexists _, _, _, _. split; [reflexivity|]. split; [reflexivity|].
  apply sub_hours_Some in H1, H2. subst c1 c2.
  apply filter_bool_mono. intros a. unfold passes, is_old.
  destruct (published a) as [d|]; [|auto].
  destruct (Z.ltb_spec d (clock env (tick w) - h1 * US_PER_HOUR)); [discriminate|].
  destruct (Z.ltb_spec d (clock env (tick w) - h2 * US_PER_HOUR)); [|auto].
  unfold US_PER_HOUR, US_PER_SECOND in *. nia.
Qed.

(** X14. An article without a ['published'] key is never rejected for its
    age, whatever the maximal age: the filter keeps it exactly when its text
    holds no stale year. *)
Theorem filter_stale_articles_undated env articles max_age_hours w cutoff a :
  STRICT_24H_FILTER env = true ->
  sub_hours (clock env (tick w)) max_age_hours = Some cutoff ->
  In a articles ->
  published a = None ->
  exists fresh w',
    filter_stale_articles env articles max_age_hours w = (Ok fresh, w') /\
    (In a fresh <-> has_stale_year a = false).
Proof.
  intros Hs Hc Ha Hp.
  rewrite (filter_stale_articles_exact env articles _ w cutoff Hs Hc).
  eexists _, _. split; [reflexivity|].
  rewrite filter_In. unfold passes, is_old. rewrite Hp. cbn [negb andb].
  destruct (has_stale_year a); split; intros H; try discriminate H.
  - destruct H as [_ H]. discriminate H.
  - reflexivity.
  - split; [exact Ha | reflexivity].
Qed.

(** ** Windows wider than the 24-hour ceiling *)

Lemma recent_make_article c url feed entry p :
  recent c (make_article url feed entry p) = (c <? p).
Proof. reflexivity. Qed.

(** A later cutoff collects what the earlier one collects, less the
    articles dated before it, and clock and log go the same way, as long as
    every entry that raises is recent for both cutoffs. *)
Lemma entries_loop_cutoffs env c1 c2 url feed es :
  c2 <= c1 ->
  Forall (fun e => summary_error e <> None ->
                   forall d, parsed_date e = Some d -> c1 < d) es ->
  forall acc w,
  (forall t, (tick w <= t)%nat -> c1 < clock env t) ->
  exists r2 raised n,
    entries_loop env c2 url feed es acc w = (Ok (r2, raised), advance n w) /\
    entries_loop env c1 url feed es (List.filter (recent c1) acc) w =
      (Ok (List.filter (recent c1) r2, raised), advance n w).
Proof.
  intros Hle Hes. induction Hes as [|entry rest Hentry _ IH]; intros acc w Hclk.
  - exists acc, None, 0%nat. rewrite advance_0. split; reflexivity.
  - rewrite !entries_loop_cons.
    destruct (stamped_advance entry w) as [k Hk]. rewrite Hk.
    assert (Hclk' : forall t, (tick (advance k w) <= t)%nat -> c1 < clock env t).
    { intros t Ht. apply Hclk. cbn [tick advance] in Ht. lia. }
    assert (Hnext : forall acc',
      exists r2 raised n,
        entries_loop env c2 url feed rest acc' (advance k w) =
          (Ok (r2, raised), advance n w) /\
        entries_loop env c1 url feed rest (List.filter (recent c1) acc')
                     (advance k w) =
          (Ok (List.filter (recent c1) r2, raised), advance n w)).
    { intros acc'. destruct (IH acc' (advance k w) Hclk')
        as (r2 & raised & n & H2 & H1).
      exists r2, raised, (n + k)%nat. rewrite <- advance_advance. auto. }
    set (p := stamp env entry w).
    destruct (summary_error entry) as [e|] eqn:Hsum.
    + assert (Hp : c1 < p).
      { unfold p, stamp. destruct (parsed_date entry) as [d|] eqn:Hd.
        - apply Hentry; [discriminate | reflexivity].
        - apply Hclk. lia. }
      replace (c1 <? p) with true by (symmetry; apply Z.ltb_lt; lia).
      replace (c2 <? p) with true by (symmetry; apply Z.ltb_lt; lia).
      exists acc, (Some e), k. split; reflexivity.
    + destruct (Z.ltb_spec c2 p).
      * destruct (Hnext (acc ++ [make_article url feed entry p]))
          as (r2 & raised & n & H2 & H1).
        exists r2, raised, n. split; [exact H2|].
        rewrite filter_bool_app in H1. cbn [List.filter] in H1.
        rewrite recent_make_article in H1.
        destruct (c1 <? p); [exact H1|]. rewrite app_nil_r in H1. exact H1.
      * destruct (Z.ltb_spec c1 p); [lia|]. apply Hnext.
Qed.

Lemma feeds_loop_cutoffs env c1 c2 urls :
  c2 <= c1 ->
  (forall t url feed entry d,
      parse_oracle env t url = Ok feed -> In entry (entries feed) ->
      summary_error entry <> None -> parsed_date entry = Some d -> c1 < d) ->
  forall acc w,
  (forall t, (tick w <= t)%nat -> c1 < clock env t) ->
  exists r2 w',
    feeds_loop env c2 urls acc w = (Ok r2, w') /\
    feeds_loop env c1 urls (List.filter (recent c1) acc) w =
      (Ok (List.filter (recent c1) r2), w').
Proof.
  intros Hle Hfail. induction urls as [|url rest IH]; intros acc w Hclk.
  - eexists _, _. split; reflexivity.
  - rewrite !feeds_loop_cons.
    destruct (parse_oracle env (tick w) url) as [feed|e] eqn:Hparse.
    + assert (Hes : Forall (fun e => summary_error e <> None ->
                              forall d, parsed_date e = Some d -> c1 < d)
                           (entries feed)).
      { apply Forall_forall. intros entry Hin Hs d Hd.
        apply list_elem_of_In in Hin. eapply Hfail; eassumption. }
      destruct (entries_loop_cutoffs env c1 c2 url feed (entries feed) Hle Hes
                  acc (logged (advance 1 w) [Info_fetching_from url]))
        as (r & raised & n & H2 & H1).
      { intros t Ht. apply Hclk. cbn [tick logged advance] in Ht. lia. }
      rewrite (bind_run _ _ _ _ _ H2), (bind_run _ _ _ _ _ H1). cbn [fst snd].
      apply IH. intros t Ht. apply Hclk. cbn [tick logged advance] in Ht. lia.
    + apply IH. intros t Ht. apply Hclk. cbn [tick logged advance] in Ht. lia.
Qed.

(** The stable sort and a filter commute. *)
Lemma insert_desc_filter {A} (Q : Z * A -> bool) k (x : A) l :
  StronglySorted key_ge l ->
  List.filter Q (insert_desc k x l) =
  if Q (k, x) then insert_desc k x (List.filter Q l) else List.filter Q l.
Proof.
  induction l as [|[k' y] l IH]; intros Hs.
  - cbn [insert_desc List.filter]. destruct (Q (k, x)); reflexivity.
  - inversion Hs as [|? ? Hs' Hall]; subst. specialize (IH Hs').
    cbn [insert_desc]. destruct (Z.leb_spec k' k) as [Hk|Hk].
    + cbn [List.filter]. destruct (Q (k, x)) eqn:Hq; [|reflexivity].
      destruct (Q (k', y)).
      * cbn [insert_desc]. destruct (Z.leb_spec k' k); [reflexivity | lia].
      * (* every later element has a key at most [k'], hence at most [k] *)
        clear IH. induction l as [|[k2 z] l IHl]; [reflexivity|].
        inversion Hall as [|? ? Hz Hall']; subst.
        inversion Hs' as [|? ? Hs2 Hall2]; subst.
        cbn [List.filter]. destruct (Q (k2, z)).
        -- cbn [insert_desc]. unfold key_ge in Hz. cbn [fst] in Hz.
           destruct (Z.leb_spec k2 k); [reflexivity | lia].
        -- apply IHl; [|exact Hs2|exact Hall'].
           constructor; [exact Hs2 | exact Hall'].
    + cbn [List.filter]. rewrite IH.
      destruct (Q (k, x)), (Q (k', y)); try reflexivity.
      cbn [insert_desc]. destruct (Z.leb_spec k' k); [lia | reflexivity].
Qed.

Lemma sort_desc_filter {A} (Q : Z * A -> bool) (l : list (Z * A)) :
  sort_desc (List.filter Q l) = List.filter Q (sort_desc l).
Proof.
  induction l as [|[k x] l IH]; [reflexivity|].
  cbn [sort_desc List.filter].
  rewrite insert_desc_filter by apply sort_desc_sorted.
  destruct (Q (k, x)); [cbn [sort_desc]|]; rewrite IH; reflexivity.
Qed.

Lemma published_keys_filter (P : Article -> bool) l :
  forall kl,
    published_keys l = Some kl ->
    published_keys (List.filter P l) =
    Some (List.filter (fun z => P (snd z)) kl).
Proof.
  induction l as [|a l IH]; intros kl H; cbn [published_keys] in H.
  - inversion H. reflexivity.
  - destruct (published a) as [p|] eqn:Hp; [|discriminate H].
    destruct (published_keys l) as [kl'|]; [|discriminate H].
    inversion H; subst. cbn [List.filter snd].
    destruct (P a); [cbn [published_keys]; rewrite Hp|];
      rewrite (IH kl' eq_refl); reflexivity.
Qed.

Lemma filter_map_snd {A B} (P : B -> bool) (l : list (A * B)) :
  List.filter P (map snd l) = map snd (List.filter (fun z => P (snd z)) l).
Proof.
  induction l as [|[k x] l IH]; [reflexivity|].
  cbn [map List.filter snd]. destruct (P x); [cbn [map snd]|];
    rewrite IH; reflexivity.
Qed.

Lemma sort_by_published_filter (P : Article -> bool) l w sorted w' :
  sort_by_published l w = (Ok sorted, w') ->
  sort_by_published (List.filter P l) w = (Ok (List.filter P sorted), w').
Proof.
  unfold sort_by_published.
  destruct (published_keys l) as [kl|] eqn:Hkl; [|discriminate].
  intros H. inversion H; subst.
  rewrite (published_keys_filter P l kl Hkl), sort_desc_filter, filter_map_snd.
  reflexivity.
Qed.

Lemma filter_filter_implied {A} (f g : A -> bool) (l : list A) :
  (forall x, In x l -> g x = true -> f x = true) ->
  List.filter g (List.filter f l) = List.filter g l.
Proof.
  induction l as [|x l IH]; intros H; [reflexivity|].
  cbn [List.filter]. rewrite <- IH by (intros y Hy; apply H; right; exact Hy).
  destruct (f x) eqn:Hf; [reflexivity|].
  destruct (g x) eqn:Hg; [|reflexivity].
  rewrite (H x (or_introl eq_refl) Hg) in Hf. discriminate Hf.
Qed.

(** With the switch on and a clock that does not run backwards, what the
    filter keeps of the sorted candidates is the same whether or not the
    candidates dated before a cutoff more than 24 hours back were collected. *)
Lemma kept_of_recent env now now0 h sorted :
  STRICT_24H_FILTER env = true ->
  now0 <= now -> 24 < h ->
  Forall (fun a => exists p, published a = Some p) sorted ->
  kept env now (List.filter (recent (now0 - h * US_PER_HOUR)) sorted) =
  kept env now sorted.
Proof.
  intros Hs Hnow Hh Hall. unfold kept. rewrite Hs.
  apply filter_filter_implied. intros a Ha Hp.
  rewrite Forall_forall in Hall. apply list_elem_of_In, Hall in Ha.
  destruct Ha as [p Hpub]. unfold recent. rewrite Hpub.
  assert (Hge := passes_not_old _ _ _ Hp Hpub).
  apply Z.ltb_lt. unfold US_PER_HOUR, US_PER_SECOND in *. lia.
Qed.

Lemma fetch_recent_news_wider env h1 h2 limit w r1 w1 r2 w2 :
  STRICT_24H_FILTER env = true ->
  (forall t t' : nat, (t <= t')%nat -> clock env t <= clock env t') ->
  (forall t feed_url feed entry d,
      parse_oracle env t feed_url = Ok feed -> In entry (entries feed) ->
      summary_error entry <> None -> parsed_date entry = Some d ->
      clock env (tick w) - 24 * US_PER_HOUR <= d) ->
  24 < h1 -> h1 <= h2 ->
  fetch_recent_news env h1 limit w = (Ok r1, w1) ->
  fetch_recent_news env h2 limit w = (Ok r2, w2) ->
  r1 = r2 /\ this w1 = this w2 /\ tick w1 = tick w2.
Proof.
  intros Hs Hmono Hfail H24 Hle. rewrite !fetch_recent_news_unfold.
  destruct (sub_hours (clock env (tick w)) h1) as [c1|] eqn:Hc1; [|discriminate].
  destruct (sub_hours (clock env (tick w)) h2) as [c2|] eqn:Hc2; [|discriminate].
  apply sub_hours_Some in Hc1, Hc2.
  assert (Hc : c2 <= c1)
    by (subst; unfold US_PER_HOUR, US_PER_SECOND; lia).
  destruct (feeds_loop_cutoffs env c1 c2 (feeds (this w)) Hc) with
    (acc := @nil Article) (w := loop_start w) as (cands & wl & Hl2 & Hl1).
  { intros t url feed entry d Hp Hin He Hd.
    specialize (Hfail t url feed entry d Hp Hin He Hd).
    subst c1. unfold US_PER_HOUR, US_PER_SECOND in *. lia. }
  { intros t Ht. cbn [tick loop_start] in Ht.
    assert (Hm := Hmono (tick w) t ltac:(lia)).
    subst c1. unfold US_PER_HOUR, US_PER_SECOND in *. lia. }
  cbn [List.filter] in Hl1.
  rewrite (bind_run _ _ _ _ _ Hl1), (bind_run _ _ _ _ _ Hl2).
  destruct (feeds_loop_run env c2 (feeds (this w)) [] (loop_start w))
    as (cands' & n & rs & Hrun & Hcands).
  rewrite Hrun in Hl2. inversion Hl2; subst cands' wl. clear Hl2.
  destruct (sort_by_published_run c2 cands (logged (advance n (loop_start w)) rs) Hcands)
    as (sorted & Hsort & Hperm & _).
  rewrite (bind_run _ _ _ _ _ (sort_by_published_filter (recent c1) _ _ _ _ Hsort)).
  rewrite (bind_run _ _ _ _ _ Hsort).
  intros H1 H2. apply after_sort_inv in H1, H2.
  destruct H1 as (Hr1 & Ht1 & Hf1 & Hk1), H2 as (Hr2 & Ht2 & Hf2 & Hk2).
  assert (Hkept : kept env (clock env (tick (logged (advance n (loop_start w)) rs)))
                    (List.filter (recent c1) sorted) =
                  kept env (clock env (tick (logged (advance n (loop_start w)) rs)))
                    sorted).
  { subst c1. apply kept_of_recent; [exact Hs| |exact H24|].
    - apply Hmono. cbn [tick logged advance loop_start]. lia.
    - rewrite Forall_forall in *. intros a Ha. rewrite Hperm in Ha.
      destruct (Hcands a Ha) as [_ (p & Hp & _)]. eauto. }
  rewrite Hkept in Hr1. subst r1 r2. split; [reflexivity|].
  split; [|congruence].
  destruct (this w1) as [f1 m1], (this w2) as [f2 m2].
  cbn [feeds _articles_cache] in *. f_equal; [congruence|].
  apply map_eq. intros k. rewrite Hk1, Hk2. reflexivity.
Qed.

(** An entry that raises is harmless while the window leaves it out: a
    wider window reaches it and loses the entries that follow it.  Here an
    entry 30 hours old with [None] under ["summary"] comes before a fresh
    one. *)
Lemma wider_window_loses_articles :
  fst (fetch_recent_news Runs.stale_broken 25 50 Scenario.start) =
    Ok [Scenario.article_now] /\
  fst (fetch_recent_news Runs.stale_broken 48 50 Scenario.start) = Ok [].
Proof. split; vm_compute; reflexivity. Qed.

(** X15. With the switch on and a clock that does not run backwards, a
    recency window wider than 24 hours changes nothing, as long as no entry
    whose summary is no text is dated more than 24 hours before the call:
    from the same state, calls with any two [hours] above 24 return the same
    list and leave the same cache. *)
Theorem fetch_recent_news_beyond_24_hours env h1 h2 limit w r1 w1 r2 w2 :
  STRICT_24H_FILTER env = true ->
  (forall t t' : nat, (t <= t')%nat -> clock env t <= clock env t') ->
  (forall t feed_url feed entry d,
      parse_oracle env t feed_url = Ok feed -> In entry (entries feed) ->
      summary_error entry <> None -> parsed_date entry = Some d ->
      clock env (tick w) - 24 * US_PER_HOUR <= d) ->
  24 < h1 -> 24 < h2 ->
  fetch_recent_news env h1 limit w = (Ok r1, w1) ->
  fetch_recent_news env h2 limit w = (Ok r2, w2) ->
  r1 = r2 /\ this w1 = this w2.
Proof.
  intros Hs Hmono Hfail H1 H2 Hf1 Hf2.
  destruct (Z.le_ge_cases h1 h2) as [Hle|Hle].
  - destruct (fetch_recent_news_wider env h1 h2 limit w _ _ _ _
                Hs Hmono Hfail H1 Hle Hf1 Hf2) as (Hr & Ht & _). auto.
  - destruct (fetch_recent_news_wider env h2 h1 limit w _ _ _ _
                Hs Hmono Hfail H2 Hle Hf2 Hf1) as (Hr & Ht & _). auto.
Qed.

(** ** The text the stale-year check reads *)

Lemma string_app_assoc (a b c : string) : (a +:+ b) +:+ c = a +:+ (b +:+ c).
Proof.
  induction a as [|x a IH]; [reflexivity|].
  rewrite !append_cons, IH. reflexivity.
Qed.

Lemma string_app_nil_r (a : string) : a +:+ EmptyString = a.
Proof.
  induction a as [|x a IH]; [reflexivity|]. rewrite append_cons, IH. reflexivity.
Qed.

(** Two ways of cutting one text in two: one cut comes first. *)
Lemma string_app_eq_split (x y u v : string) :
  x +:+ y = u +:+ v ->
  exists m, (u = x +:+ m /\ y = m +:+ v) \/ (x = u +:+ m /\ v = m +:+ y).
Proof.
  revert u. induction x as [|c x IH]; intros u H.
  - exists u. left. rewrite !append_nil_l in *. auto.
  - destruct u as [|d u].
    + exists (String c x). right. rewrite !append_nil_l in *. auto.
    + rewrite !append_cons in H. inversion H; subst d.
      destruct (IH u H2) as [m [[-> ->]|[-> ->]]]; exists m;
        [left | right]; rewrite append_cons; auto.
Qed.

Lemma has_char_app c (a b : string) :
  has_char c (a +:+ b) = has_char c a || has_char c b.
Proof.
  induction a as [|x a IH]; [reflexivity|].
  rewrite append_cons. cbn [has_char]. rewrite IH, orb_assoc. reflexivity.
Qed.

Lemma last_char_app prev (a b : string) :
  last_char prev (a +:+ b) = last_char (last_char prev a) b.
Proof.
  revert prev. induction a as [|x a IH]; intros prev; [reflexivity|].
  rewrite append_cons. cbn [last_char]. apply IH.
Qed.

Lemma last_char_nonword prev (s : string) :
  Re.is_word_opt prev = false ->
  Re.is_word_opt (last_char None s) = false ->
  Re.is_word_opt (last_char prev s) = false.
Proof. destruct s; intros Hp Hs; [exact Hp | exact Hs]. Qed.

Lemma last_char_nonword_inv (s : string) prev :
  Re.is_word_opt (last_char prev s) = false ->
  Re.is_word_opt (last_char None s) = false.
Proof. destruct s; intros H; [reflexivity | exact H]. Qed.

Lemma head_char_app_nonword (a b : string) :
  Re.is_word_opt (Re.head_char a) = false ->
  Re.is_word_opt (Re.head_char b) = false ->
  Re.is_word_opt (Re.head_char (a +:+ b)) = false.
Proof. destruct a; intros Ha Hb; [exact Hb | exact Ha]. Qed.

Lemma head_char_app_nonword_inv (a b : string) :
  Re.is_word_opt (Re.head_char (a +:+ b)) = false ->
  Re.is_word_opt (Re.head_char a) = false.
Proof. destruct a; intros H; [reflexivity | exact H]. Qed.

(** A word without a space occurs whole in [t + " " + s] exactly when it
    occurs whole in [t] or in [s]. *)
Lemma whole_word_in_joined lit t s :
  has_char " " lit = false -> lit <> EmptyString ->
  whole_word_in lit (t +:+ " " +:+ s) <->
  whole_word_in lit t \/ whole_word_in lit s.
Proof.
  intros Hsp Hne. unfold whole_word_in. split.
  - intros (pre & post & Heq & Hp & Hn).
    destruct (string_app_eq_split _ _ _ _ Heq) as [m [[Hpre Hrest]|[Ht Hrest]]].
    + (* the word starts after the title *)
      destruct m as [|c m].
      * rewrite append_nil_l in Hrest. destruct lit as [|x lit]; [congruence|].
        rewrite append_cons in Hrest. inversion Hrest; subst x.
        cbn [has_char] in Hsp. discriminate Hsp.
      * rewrite append_cons in Hrest. inversion Hrest; subst c.
        right. exists m, post. split; [assumption|]. split; [|exact Hn].
        subst pre. rewrite last_char_app in Hp. cbn [last_char] in Hp.
        eapply last_char_nonword_inv. exact Hp.
    + (* the word starts in the title *)
      symmetry in Hrest.
      destruct (string_app_eq_split _ _ _ _ Hrest) as [m' [[Hlit Hs']|[Hm Hpost]]].
      * destruct m' as [|c m'].
        -- rewrite string_app_nil_r in Hlit. subst m.
           left. exists pre, EmptyString. rewrite string_app_nil_r.
           split; [assumption|]. split; [exact Hp | reflexivity].
        -- rewrite append_cons in Hs'. inversion Hs'; subst c.
           subst lit. rewrite has_char_app in Hsp. cbn [has_char] in Hsp.
           rewrite orb_true_r in Hsp. discriminate Hsp.
      * left. exists pre, m'. subst m. split; [assumption|].
        split; [exact Hp|]. subst post.
        eapply head_char_app_nonword_inv. exact Hn.
  - intros [(pre & post & -> & Hp & Hn) | (pre & post & -> & Hp & Hn)].
    + exists pre, (post +:+ " " +:+ s). rewrite !string_app_assoc.
      split; [reflexivity|]. split; [exact Hp|].
      apply head_char_app_nonword; [exact Hn | reflexivity].
    + exists (t +:+ " " +:+ pre), post. rewrite !string_app_assoc.
      split; [reflexivity|]. split; [|exact Hn].
      rewrite <- string_app_assoc, last_char_app.
      apply last_char_nonword; [|exact Hp].
      rewrite last_char_app. reflexivity.
Qed.

(** X16. The space between title and summary makes the stale-year check a
    check of each text on its own: an article has a stale year exactly when
    its title, or its summary, holds 2024, 2023 or 2022 as a whole word.  No
    year is found across the join and none is missed next to it. *)
Theorem stale_year_in_title_or_summary a :
  has_stale_year a = true <->
  exists year,
    In year ["2024"; "2023"; "2022"]%string /\
    (whole_word_in year (title a) \/ whole_word_in year (summary a)).
Proof.
  rewrite has_stale_year_iff. unfold text_to_check.
  split; intros (year & Hy & H); exists year; (split; [exact Hy|]).
  - apply whole_word_in_joined in H; [exact H| |];
      cbn [In] in Hy; destruct Hy as [<-|[<-|[<-|[]]]];
      (reflexivity || discriminate).
  - apply whole_word_in_joined; [| |exact H];
      cbn [In] in Hy; destruct Hy as [<-|[<-|[<-|[]]]];
      (reflexivity || discriminate).
Qed.

(** ** When every source is down *)

Lemma feeds_loop_all_down env c urls :
  (forall t url, In url urls -> exists e, parse_oracle env t url = Raise e) ->
  forall acc w,
  exists rs,
    feeds_loop env c urls acc w =
      (Ok acc, logged (advance (length urls) w) rs) /\
    map fst (omap failure rs) = urls.
Proof.
  induction urls as [|url rest IH]; intros Hdown acc w.
  - exists []. rewrite advance_0, logged_nil. split; reflexivity.
  - rewrite feeds_loop_cons.
    destruct (Hdown (tick w) url (or_introl eq_refl)) as [e ->].
    destruct (IH (fun t u Hu => Hdown t u (or_intror Hu)) acc
                 (logged (advance 1 w)
                    [Info_fetching_from url; Error_fetching url e]))
      as (rs & -> & Hrs).
    exists (Info_fetching_from url :: Error_fetching url e :: rs). split.
    + unfold advance, logged. cbn [tick log this length].
      rewrite <- !app_assoc. same_run.
    + cbn [omap list_omap failure map fst]. rewrite Hrs. reflexivity.
Qed.

(** X17. Sources that all fail are no failure of the call: when every
    configured source raises, the call returns the empty list, leaves an
    empty cache, logs one error per source in the configured order and, the
    switch being on, the warning that nothing fresh is left. *)
Theorem fetch_recent_news_all_sources_down env hours limit w cutoff_time :
  STRICT_24H_FILTER env = true ->
  (forall t feed_url, In feed_url (feeds (this w)) ->
                      exists e, parse_oracle env t feed_url = Raise e) ->
  sub_hours (clock env (tick w)) hours = Some cutoff_time ->
  (forall t, exists c, sub_hours (clock env t) 24 = Some c) ->
  exists rs w',
    fetch_recent_news env hours limit w = (Ok [], w') /\
    log w' = log w ++ rs /\
    this w' = mkNewsFetcher (feeds (this w)) ∅ /\
    map fst (omap failure rs) = feeds (this w) /\
    In Warning_all_filtered_out rs.
Proof.
  intros Hs Hdown Hc Hclk. rewrite fetch_recent_news_unfold, Hc.
  destruct (feeds_loop_all_down env cutoff_time (feeds (this w)) Hdown []
              (loop_start w)) as (rs & Hloop & Hrs).
  rewrite (bind_run _ _ _ _ _ Hloop).
  unfold bind at 1. unfold sort_by_published.
  cbn [published_keys sort_desc map]. unfold ret at 1. unfold after_sort.
  set (w1 := logged (advance (length (feeds (this w))) (loop_start w)) rs).
  destruct (Hclk (tick w1)) as [c24 Hc24].
  rewrite (bind_run _ _ _ _ _ (filter_stale_articles_exact env [] 24 w1 c24 Hs Hc24)).
  cbn [List.filter omap list_omap length Nat.eqb app].
  rewrite slice_to_nil. cbn [id_loop]. unfold bind, ret, logger.
  eexists _, _. split; [reflexivity|].
  cbn [log this tick logged advance loop_start w1 feeds length].
  rewrite <- !app_assoc. split; [reflexivity|]. split; [reflexivity|].
  rewrite !omap_app. cbn [omap list_omap failure]. rewrite app_nil_r.
  split; [exact Hrs|]. apply in_or_app. right. right. left. reflexivity.
Qed.

(** ** Instances *)

Lemma filter_stale_articles_log_witness :
  exists fresh rejected tail,
    filter_stale_articles Scenario.frozen
      [Scenario.article_clean; Runs.article_week_old] 24 Scenario.start =
    (Ok fresh,
     logged (advance 1 Scenario.start)
       (omap (rejection (clock Scenario.frozen (tick Scenario.start))
                        (Scenario.noon - 24 * US_PER_HOUR))
             [Scenario.article_clean; Runs.article_week_old] ++
        Info_stale_filter (length fresh) rejected
                          (Scenario.noon - 24 * US_PER_HOUR) :: tail)) /\
    (length fresh + rejected)%nat =
      length [Scenario.article_clean; Runs.article_week_old] /\
    (tail = [Warning_all_filtered_out] /\ fresh = [] \/
     tail = [] /\ fresh <> []) /\
    forall a d, In a [Scenario.article_clean; Runs.article_week_old] ->
      published a = Some d -> d < Scenario.noon - 24 * US_PER_HOUR ->
      rejection (clock Scenario.frozen (tick Scenario.start))
                (Scenario.noon - 24 * US_PER_HOUR) a =
      Some (Debug_rejected_age (clock Scenario.frozen (tick Scenario.start) - d)
                               (str_prefix 50 (title a))).
Proof.
  apply (filter_stale_articles_log Scenario.frozen
           [Scenario.article_clean; Runs.article_week_old] 24 Scenario.start
           (Scenario.noon - 24 * US_PER_HOUR)); reflexivity.
Defined.

Lemma fetch_recent_news_provenance_witness :
  fetch_recent_news Scenario.frozen 48 50 Scenario.start =
    (Ok Scenario.result, Scenario.after_fetch) /\
  forall a, In a Scenario.result ->
    exists feed_url feed entry p,
      In feed_url (feeds (this Scenario.start)) /\
      (exists t, parse_oracle Scenario.frozen t feed_url = Ok feed) /\
      In entry (entries feed) /\
      (parsed_date entry = Some p \/
       parsed_date entry = None /\ exists t, p = clock Scenario.frozen t) /\
      title a = default "No title" (entry_title entry) /\
      link a = default "" (entry_link entry) /\
      source a = default feed_url (feed_title feed) /\
      published a = Some p /\
      summary_error entry = None /\
      summary a = str_prefix 500 (summary_text entry).
Proof.
  split; [vm_compute; reflexivity|].
  apply (fetch_recent_news_provenance Scenario.frozen 48 50 Scenario.start
           Scenario.result Scenario.after_fetch).
  vm_compute. reflexivity.
Defined.

Lemma fetch_recent_news_summary_bound_witness :
  fetch_recent_news Scenario.frozen 48 50 Scenario.start =
    (Ok Scenario.result, Scenario.after_fetch) /\
  forall a, In a Scenario.result -> (String.length (summary a) <= 500)%nat.
Proof.
  split; [vm_compute; reflexivity|].
  apply (fetch_recent_news_summary_bound Scenario.frozen 48 50 Scenario.start
           Scenario.result Scenario.after_fetch).
  vm_compute. reflexivity.
Defined.

Lemma fetch_recent_news_in_window_witness :
  fetch_recent_news Scenario.frozen 48 50 Scenario.start =
    (Ok Scenario.result, Scenario.after_fetch) /\
  forall a, In a Scenario.result ->
    exists p, published a = Some p /\
              clock Scenario.frozen (tick Scenario.start) - 48 * US_PER_HOUR < p.
Proof.
  split; [vm_compute; reflexivity|].
  apply (fetch_recent_news_in_window Scenario.frozen 48 50 Scenario.start
           Scenario.result Scenario.after_fetch).
  vm_compute. reflexivity.
Defined.

Lemma fetch_recent_news_no_stale_year_witness :
  fetch_recent_news Scenario.frozen 48 50 Scenario.start =
    (Ok Scenario.result, Scenario.after_fetch) /\
  forall a year,
    In a Scenario.result -> In year ["2024"; "2023"; "2022"]%string ->
    ~ whole_word_in year (title a +:+ " " +:+ summary a).
Proof.
  split; [vm_compute; reflexivity|].
  apply (fetch_recent_news_no_stale_year Scenario.frozen 48 50 Scenario.start
           Scenario.result Scenario.after_fetch).
  - reflexivity.
  - vm_compute. reflexivity.
Defined.

Lemma fetch_recent_news_log_witness :
  exists rs,
    log Runs.after_down =
      log Scenario.start_down ++ rs ++ [Info_fetched (length Scenario.result)] /\
    omap fetching rs = feeds (this Scenario.start_down) /\
    forall feed_url e,
      In (feed_url, e) (omap failure rs) ->
      In feed_url (feeds (this Scenario.start_down)) /\
      ((exists t, parse_oracle Scenario.down t feed_url = Raise e) \/
       (exists t feed entry,
          parse_oracle Scenario.down t feed_url = Ok feed /\
          In entry (entries feed) /\ summary_error entry = Some e)).
Proof.
  apply (fetch_recent_news_log Scenario.down 48 50 Scenario.start_down
           Scenario.result Runs.after_down).
  vm_compute. reflexivity.
Defined.



Lemma fetch_recent_news_limit_witness :
  [Scenario.article_now] = slice_to 1 Scenario.result /\
  (0 <= 1 -> Z.of_nat (length [Scenario.article_now]) <= 1).
Proof.
  apply (fetch_recent_news_limit Scenario.frozen 48 1 50 Scenario.start
           [Scenario.article_now] Runs.after_one
           Scenario.result Scenario.after_fetch).
  - vm_compute. reflexivity.
  - vm_compute. reflexivity.
  - vm_compute. reflexivity.
Defined.

Lemma filter_stale_articles_monotone_witness :
  exists fresh1 fresh2 w1 w2,
    filter_stale_articles Scenario.frozen
      [Scenario.article_clean; Runs.article_week_old] 24 Scenario.start =
      (Ok fresh1, w1) /\
    filter_stale_articles Scenario.frozen
      [Scenario.article_clean; Runs.article_week_old] 200 Scenario.start =
      (Ok fresh2, w2) /\
    sublist fresh1 fresh2.
Proof.
  apply (filter_stale_articles_monotone Scenario.frozen
           [Scenario.article_clean; Runs.article_week_old] 24 200 Scenario.start
           (Scenario.noon - 24 * US_PER_HOUR) (Scenario.noon - 200 * US_PER_HOUR)).
  - reflexivity.
  - lia.
  - reflexivity.
  - reflexivity.
Defined.

Lemma filter_stale_articles_undated_witness :
  exists fresh w',
    filter_stale_articles Scenario.frozen
      [Runs.article_week_old; Runs.article_no_date] 24 Scenario.start =
      (Ok fresh, w') /\
    (In Runs.article_no_date fresh <->
     has_stale_year Runs.article_no_date = false).
Proof.
  apply (filter_stale_articles_undated Scenario.frozen
           [Runs.article_week_old; Runs.article_no_date] 24 Scenario.start
           (Scenario.noon - 24 * US_PER_HOUR)).
  - reflexivity.
  - reflexivity.
  - simpl. auto.
  - reflexivity.
Defined.

Lemma fetch_recent_news_beyond_24_hours_witness :
  Scenario.result = Scenario.result /\
  this Scenario.after_fetch = this Runs.after_100.
Proof.
  apply (fetch_recent_news_beyond_24_hours Scenario.frozen 48 100 50
           Scenario.start Scenario.result Scenario.after_fetch
           Scenario.result Runs.after_100).
  - reflexivity.
  - intros t t' _. simpl. lia.
  - intros t u f entry d Hf. cbn in Hf. inversion Hf; subst f.
    cbn [entries Scenario.feed Scenario.feed_of Scenario.four In].
    intros [<-|[<-|[<-|[<-|[]]]]] He; exfalso; apply He; reflexivity.
  - lia.
  - lia.
  - vm_compute. reflexivity.
  - vm_compute. reflexivity.
Defined.

Lemma fetch_recent_news_all_sources_down_witness :
  exists rs w',
    fetch_recent_news Runs.all_down 8 50 Scenario.start_down = (Ok [], w') /\
    log w' = log Scenario.start_down ++ rs /\
    this w' = mkNewsFetcher (feeds (this Scenario.start_down)) ∅ /\
    map fst (omap failure rs) = feeds (this Scenario.start_down) /\
    In Warning_all_filtered_out rs.
Proof.
  apply (fetch_recent_news_all_sources_down Runs.all_down 8 50
           Scenario.start_down (Scenario.noon - 8 * US_PER_HOUR)).
  - reflexivity.
  - intros t u _. eexists. reflexivity.
  - reflexivity.
  - intros t. eexists. vm_compute. reflexivity.
Defined.
